(** * BoxBlurMaterial: parameter and derivation logic

    A shallow embedding of [src/materials/BoxBlurMaterial.js].

    Number model.  A finite JavaScript Number is given by its exact value,
    a rational ([Q]).  The arithmetic of the source is that of binary64:
    every operator rounds its exact result to the nearest binary64, ties to
    even, and overflows to an infinity ([JS.round]); the results are
    [JS.number]s, which have the infinities and NaN.  A zero is [+0], and
    the exponent notation that [toFixed] switches to at [1e21] is not
    modelled.

    The [defines] object of the material is a string-keyed map of strings,
    exactly as in the source: every setter writes the text produced by
    [toFixed] and every getter reads it back through [Number]. *)

From Stdlib Require Import ZArith Zquot NArith QArith Qround Qabs Qfield Qpower.
From Stdlib Require Import Ascii String Lia Lqa.
From stdpp Require Import gmap strings list.

Local Open Scope Z_scope.

(** ** Decimal digits *)

Module Digits.

Definition ascii_of_digit (d : N) : ascii := ascii_of_N (48 + d).

Definition digit_of_ascii (c : ascii) : option N :=
  let n := N_of_ascii c in
  if ((48 <=? n) && (n <=? 57))%N then Some (n - 48)%N else None.

(** Digits of [n], least significant first.  [fuel] bounds the number of
    digits that are produced. *)
Fixpoint digits_le (fuel : nat) (n : N) : list N :=
  match fuel with
  | O => []
  | S fuel' =>
      if (n <? 10)%N then [n]
      else (n mod 10)%N :: digits_le fuel' (n / 10)%N
  end.

(** The decimal representation of [n], most significant digit first, with
    no leading zero; the representation of zero is the single digit 0. *)
Definition digits (n : N) : list N :=
  rev (digits_le (S (N.size_nat n)) n).

(** Value of a big-endian digit list, continuing from [acc]. *)
Definition value_of (ds : list N) (acc : N) : N :=
  fold_left (fun a d => (10 * a + d)%N) ds acc.

Definition print (n : N) : list ascii := map ascii_of_digit (digits n).

(** Reads a run of decimal digits; [None] when a character is not one. *)
Fixpoint parse (cs : list ascii) (acc : N) : option N :=
  match cs with
  | [] => Some acc
  | c :: cs' =>
      match digit_of_ascii c with
      | Some d => parse cs' (10 * acc + d)%N
      | None => None
      end
  end.

End Digits.

(** ** Rounding to binary64 *)

Module Binary64.

(** The exponent [l] with [2^l <= x < 2^(l+1)], for a positive [x]. *)
Definition ilog2 (x : Q) : Z :=
  let k := Z.log2 (Qnum x) - Z.log2 (Zpos (Qden x)) in
  if Qle_bool (2 ^ k)%Q x then k else k - 1.

(** The nearest integer, the even one of two that are equally near. *)
Definition round_half_even (s : Q) : Z :=
  let m := Qfloor s in
  match (s - inject_Z m ?= 1 # 2)%Q with
  | Lt => m
  | Gt => m + 1
  | Eq => if Z.even m then m else m + 1
  end.

(** The exponent of the unit in the last place of a binary64 near [x]:
    53 significant bits, and no finer than [2^-1074]. *)
Definition exponent (x : Q) : Z := Z.max (ilog2 (Qabs x) - 52) (-1074).

(** The binary64 nearest to [x], ties to even, as long as it is finite. *)
Definition nearest (x : Q) : Q :=
  if Qeq_bool x 0 then 0%Q
  else (inject_Z (round_half_even (x / 2 ^ exponent x)) * 2 ^ exponent x)%Q.

(** The relative error of a rounding, [2^-53], and the absolute error in
    the subnormal range, [2^-1075]. *)
Definition u : Q := (2 ^ (-53))%Q.
Definition eta : Q := (2 ^ (-1075))%Q.

End Binary64.

(** ** The built-ins the source calls on Numbers and strings *)

Module JS.

Definition dot : ascii := "."%char.
Definition minus : ascii := "-"%char.
Definition plus : ascii := "+"%char.
Definition zero : ascii := "0"%char.

Definition pow10 (f : nat) : positive := Z.to_pos (10 ^ Z.of_nat f).

(** The integer [n] for which [n / 10^f - x] is closest to zero, the
    larger one when two are equally close, as [Number.prototype.toFixed]
    chooses it; [x] is not negative there. *)
Definition nearest (f : nat) (x : Q) : N :=
  Z.to_N (Qfloor (x * inject_Z (Zpos (pow10 f)) + (1 # 2))).

(** The digits of [n], padded on the left with zeros to [f + 1] characters
    when there are no more than [f] of them. *)
Definition padded (f : nat) (n : N) : list ascii :=
  let m := Digits.print n in
  let k := length m in
  if (k <=? f)%nat then replicate (f + 1 - k) zero ++ m else m.

(** The digits of [n] with a point before the last [f] of them; no point
    when [f] is zero. *)
Definition fixed_digits (f : nat) (n : N) : list ascii :=
  if (f =? 0)%nat then Digits.print n
  else
    let m := padded f n in
    let k := length m in
    take (k - f) m ++ dot :: drop (k - f) m.

(** [x.toFixed(f)]: a negative [x] is written as a minus sign followed by
    the text of [-x]. *)
Definition toFixed (f : nat) (x : Q) : string :=
  string_of_list_ascii
    (if Qlt_le_dec x 0
     then minus :: fixed_digits f (nearest f (- x))
     else fixed_digits f (nearest f x)).

(** Splits at the first point: the characters before it, and those after
    it when there is one. *)
Fixpoint split_point (cs : list ascii) : list ascii * option (list ascii) :=
  match cs with
  | [] => ([], None)
  | c :: cs' =>
      if Ascii.eqb c dot then ([], Some cs')
      else let '(a, b) := split_point cs' in (c :: a, b)
  end.

(** An unsigned decimal literal: digits, optionally a point and more
    digits, with at least one digit in all. *)
Definition unsigned_literal (cs : list ascii) : option Q :=
  let '(a, b) := split_point cs in
  let b := match b with Some b => b | None => [] end in
  if (length a + length b =? 0)%nat then None
  else
    match Digits.parse (a ++ b) 0 with
    | Some v => Some (Z.of_N v # pow10 (length b))
    | None => None
    end.

(** [Number(s)] on the decimal literals that the material stores: the empty
    string is zero, a literal may carry a sign, and any other text gives
    [None] (NaN in the source; exponents, hexadecimal literals, white space
    and [Infinity] are not modelled). *)
Definition Number (s : string) : option Q :=
  match list_ascii_of_string s with
  | [] => Some 0%Q
  | c :: cs =>
      if Ascii.eqb c minus then Qopp <$> unsigned_literal cs
      else if Ascii.eqb c plus then unsigned_literal cs
      else unsigned_literal (c :: cs)
  end.

(** The value that the text of [toFixed f] denotes. *)
Definition rounded (f : nat) (x : Q) : Q :=
  if Qlt_le_dec x 0 then (- (Z.of_N (nearest f (- x)) # pow10 f))%Q
  else Z.of_N (nearest f x) # pow10 f.

(** [Math.floor]. *)
Definition floor (x : Q) : Q := inject_Z (Qfloor x).

(** Rounding toward zero. *)
Definition trunc (x : Q) : Z :=
  if Qlt_le_dec x 0 then (- Qfloor (- x))%Z else Qfloor x.

(** The [%] operator: the remainder has the sign of the dividend.  It is
    exact in binary64. *)
Definition rem (x y : Q) : Q := (x - y * inject_Z (trunc (x / y)))%Q.

(** *** Results of arithmetic *)

(** A Number: NaN, an infinity with its sign, or a finite value. *)
Inductive number : Type :=
  | NaN
  | Infinity (negative : bool)
  | Finite (q : Q).

Definition is_negative (q : Q) : bool := negb (Qle_bool 0 q).

(** The Number that an operator returns for the exact result [x]: the
    nearest binary64, and an infinity from [2^1024] on. *)
Definition round (x : Q) : number :=
  let y := Binary64.nearest x in
  if Qle_bool (2 ^ 1024)%Q (Qabs y) then Infinity (is_negative x) else Finite y.

(** Unary [-]. *)
Definition neg (a : number) : number :=
  match a with
  | NaN => NaN
  | Infinity s => Infinity (negb s)
  | Finite q => Finite (- q)
  end.

(** [a + b] *)
Definition add (a b : number) : number :=
  match a, b with
  | NaN, _ | _, NaN => NaN
  | Infinity s, Infinity s' => if Bool.eqb s s' then Infinity s else NaN
  | Infinity s, Finite _ | Finite _, Infinity s => Infinity s
  | Finite p, Finite q => round (p + q)
  end.

(** [a - b] *)
Definition sub (a b : number) : number := add a (neg b).

(** [a * b] *)
Definition mul (a b : number) : number :=
  match a, b with
  | NaN, _ | _, NaN => NaN
  | Infinity s, Infinity s' => Infinity (xorb s s')
  | Infinity s, Finite q | Finite q, Infinity s =>
      if Qeq_bool q 0 then NaN else Infinity (xorb s (is_negative q))
  | Finite p, Finite q => round (p * q)
  end.

(** [a / b] *)
Definition div (a b : number) : number :=
  match a, b with
  | NaN, _ | _, NaN => NaN
  | Infinity _, Infinity _ => NaN
  | Infinity s, Finite q => Infinity (xorb s (is_negative q))
  | Finite _, Infinity _ => Finite 0
  | Finite p, Finite q =>
      if Qeq_bool q 0
      then if Qeq_bool p 0 then NaN else Infinity (is_negative p)
      else round (p / q)
  end.

(** [a ** 2], the square rounded once. *)
Definition pow2 (a : number) : number := mul a a.

(** [Math.floor(a)] *)
Definition Math_floor (a : number) : number :=
  match a with
  | Finite q => Finite (floor q)
  | _ => a
  end.

(** [a.toFixed(f)] on the result of an operator: a Number that is not
    finite is written by name. *)
Definition toFixed_number (f : nat) (a : number) : string :=
  match a with
  | NaN => "NaN"
  | Infinity false => "Infinity"
  | Infinity true => "-Infinity"
  | Finite q => toFixed f q
  end.

(** [Number(s)] as the source computes with it: the value of a decimal
    literal of [Number] rounded to binary64, and the infinities by name;
    any other text reads as NaN (exponents, hexadecimal literals and white
    space are not modelled). *)
Definition ToNumber (s : string) : number :=
  match Number s with
  | Some q => round q
  | None =>
      if (String.eqb s "Infinity" || String.eqb s "+Infinity")%bool
      then Infinity false
      else if String.eqb s "-Infinity" then Infinity true
      else NaN
  end.

End JS.

(** ** Values and the state of the material *)

(** A JavaScript value, as far as the material distinguishes them: the
    setters compare their argument with [null] and read nothing else of it.
    A texture is an object, known by its identity. *)
Inductive value : Type :=
  | Null
  | Undefined
  | Bool (b : bool)
  | Num (q : Q)
  | Str (s : string)
  | Object (id : positive).

(** [v !== null] *)
Definition not_null (v : value) : bool :=
  match v with
  | Null => false
  | _ => true
  end.

Record Vector2 (A : Type) : Type := { x : A; y : A }.
Arguments x {A} _.
Arguments y {A} _.
Arguments Build_Vector2 {A} _ _.

Record Uniforms : Type := {
  inputBuffer : value;
  depthBuffer : value;
  normalDepthBuffer : value;
  texelSize : Vector2 JS.number;
  cameraNearFar : Vector2 Q;
  scale : Q
}.

Inductive Blending : Type := NoBlending | NormalBlending.

Record BoxBlurMaterial : Type := {
  name : string;
  defines : gmap string string;
  uniforms : Uniforms;
  blending : Blending;
  toneMapped : bool;
  depthWrite : bool;
  depthTest : bool;
  (** the recompilation flag; the renderer clears it after it has rebuilt
      the program *)
  needsUpdate : bool
}.

(** A camera, reduced to what [copyCameraSettings] reads of it:
    [isPerspectiveCamera] answers [camera instanceof PerspectiveCamera]. *)
Record Camera : Type := {
  near : Q;
  far : Q;
  isPerspectiveCamera : bool
}.

(** ** Statements: state passing with exceptions *)

Inductive completion (A : Type) : Type :=
  | Normal (a : A)
  | Throw (message : string).
Arguments Normal {A} a.
Arguments Throw {A} message.

(** A method body: it runs on a material and completes, normally or by
    throwing, leaving the material as it was at that point. *)
Definition M (A : Type) : Type := BoxBlurMaterial -> completion A * BoxBlurMaterial.

Definition throw {A} (message : string) : M A := fun m => (Throw message, m).

#[global] Instance M_ret : MRet M := fun A a m => (Normal a, m).

#[global] Instance M_bind : MBind M := fun A B k c m =>
  match c m with
  | (Normal a, m') => k a m'
  | (Throw e, m') => (Throw e, m')
  end.

(** The material after the statement has run. *)
Definition exec {A} (c : M A) (m : BoxBlurMaterial) : BoxBlurMaterial := snd (c m).

Definition with_defines (f : gmap string string -> gmap string string) : M unit :=
  fun m =>
    (Normal tt,
     {| name := name m; defines := f (defines m); uniforms := uniforms m;
        blending := blending m; toneMapped := toneMapped m;
        depthWrite := depthWrite m; depthTest := depthTest m;
        needsUpdate := needsUpdate m |}).

Definition with_uniforms (f : Uniforms -> Uniforms) : M unit :=
  fun m =>
    (Normal tt,
     {| name := name m; defines := defines m; uniforms := f (uniforms m);
        blending := blending m; toneMapped := toneMapped m;
        depthWrite := depthWrite m; depthTest := depthTest m;
        needsUpdate := needsUpdate m |}).

(** [this.defines.KEY = text] *)
Definition set_define (key text : string) : M unit :=
  with_defines (fun d => <[key := text]> d).

(** [delete this.defines.KEY] *)
Definition delete_define (key : string) : M unit :=
  with_defines (fun d => delete key d).

(** [this.needsUpdate = b] *)
Definition set_needsUpdate (b : bool) : M unit :=
  fun m =>
    (Normal tt,
     {| name := name m; defines := defines m; uniforms := uniforms m;
        blending := blending m; toneMapped := toneMapped m;
        depthWrite := depthWrite m; depthTest := depthTest m;
        needsUpdate := b |}).

(** [Number(this.defines.KEY)], as the exact value of the stored text; a
    missing key reads as [undefined], whose Number is NaN. *)
Definition define_number (m : BoxBlurMaterial) (key : string) : option Q :=
  match defines m !! key with
  | Some text => JS.Number text
  | None => None
  end.

(** ** The depth conversions imported from [../utils] *)

Module DepthCodec.

(** Modelled from the spec: [utils/orthographicDepthToViewZ.js] is not
    among the sources.  The spec describes it as the map from a normalized
    depth sample of an orthographic-style encoding back to linear
    view-space depth, the inverse of a linear rescale into [0,1]: depth 0
    is the near plane (view Z [-near]) and depth 1 the far plane.  It is
    taken as [depth * (near - far) - near]. *)
Definition orthographicDepthToViewZ (depth near far : JS.number) : JS.number :=
  JS.sub (JS.mul depth (JS.sub near far)) near.

(** Modelled from the spec: [utils/viewZToOrthographicDepth.js] is not
    among the sources.  The spec describes it as the inverse mapping, a
    linear rescale of the view-space depth into [0,1].  It is taken as
    [(viewZ + near) / (near - far)]. *)
Definition viewZToOrthographicDepth (viewZ near far : JS.number) : JS.number :=
  JS.div (JS.add viewZ near) (JS.sub near far).

End DepthCodec.

(** ** The methods of [BoxBlurMaterial] *)

(** [set maxVaryingVectors(value)] *)
Definition set_maxVaryingVectors (value : Q) : M unit :=
  set_define "MAX_VARYING_VECTORS" (JS.toFixed 0 value).

(** [get kernelSize()] *)
Definition get_kernelSize (m : BoxBlurMaterial) : option Q :=
  define_number m "KERNEL_SIZE".

Definition kernelSize_error : string := "The kernel size must be an odd number".

(** [set kernelSize(value)] *)
Definition set_kernelSize (value : Q) : M unit :=
  if Qeq_bool (JS.rem value 2) 0 then throw kernelSize_error
  else
    set_define "KERNEL_SIZE" (JS.toFixed 0 value);;
    set_define "KERNEL_SIZE_HALF"
      (JS.toFixed_number 0
         (JS.Math_floor (JS.div (JS.Finite value) (JS.Finite 2))));;
    set_define "KERNEL_SIZE_SQ"
      (JS.toFixed_number 0 (JS.pow2 (JS.Finite value)));;
    set_define "KERNEL_SIZE_SQ_HALF"
      (JS.toFixed_number 0
         (JS.Math_floor (JS.div (JS.pow2 (JS.Finite value)) (JS.Finite 2))));;
    set_define "INV_KERNEL_SIZE_SQ"
      (JS.toFixed_number 6 (JS.div (JS.Finite 1) (JS.pow2 (JS.Finite value))));;
    set_needsUpdate true.

(** [get scale()] *)
Definition get_scale (m : BoxBlurMaterial) : Q := scale (uniforms m).

(** [set scale(value)] *)
Definition set_scale (value : Q) : M unit :=
  with_uniforms (fun u =>
    {| inputBuffer := inputBuffer u; depthBuffer := depthBuffer u;
       normalDepthBuffer := normalDepthBuffer u; texelSize := texelSize u;
       cameraNearFar := cameraNearFar u; scale := value |}).

(** [get near()] *)
Definition get_near (m : BoxBlurMaterial) : Q := x (cameraNearFar (uniforms m)).

(** [get far()] *)
Definition get_far (m : BoxBlurMaterial) : Q := y (cameraNearFar (uniforms m)).

(** [set inputBuffer(value)] *)
Definition set_inputBuffer (v : value) : M unit :=
  with_uniforms (fun u =>
    {| inputBuffer := v; depthBuffer := depthBuffer u;
       normalDepthBuffer := normalDepthBuffer u; texelSize := texelSize u;
       cameraNearFar := cameraNearFar u; scale := scale u |}).

(** [set depthBuffer(value)] *)
Definition set_depthBuffer (v : value) : M unit :=
  with_uniforms (fun u =>
    {| inputBuffer := inputBuffer u; depthBuffer := v;
       normalDepthBuffer := normalDepthBuffer u; texelSize := texelSize u;
       cameraNearFar := cameraNearFar u; scale := scale u |}).

(** [set normalDepthBuffer(value)] *)
Definition set_normalDepthBuffer (v : value) : M unit :=
  with_uniforms (fun u =>
    {| inputBuffer := inputBuffer u; depthBuffer := depthBuffer u;
       normalDepthBuffer := v; texelSize := texelSize u;
       cameraNearFar := cameraNearFar u; scale := scale u |});;
  (if not_null v then set_define "NORMAL_DEPTH" "1"
   else delete_define "NORMAL_DEPTH");;
  set_needsUpdate true.

(** [set depthPacking(value)] *)
Definition set_depthPacking (value : Q) : M unit :=
  set_define "DEPTH_PACKING" (JS.toFixed 0 value);;
  set_needsUpdate true.

(** [get bilateral()] *)
Definition get_bilateral (m : BoxBlurMaterial) : bool :=
  bool_decide (is_Some (defines m !! "BILATERAL")).

(** [set bilateral(value)] *)
Definition set_bilateral (v : value) : M unit :=
  (if not_null v then set_define "BILATERAL" "1"
   else delete_define "BILATERAL");;
  set_needsUpdate true.

(** [get worldDistanceThreshold()]; a missing define reads as
    [undefined], whose Number is NaN. *)
Definition get_worldDistanceThreshold (m : BoxBlurMaterial) : JS.number :=
  let threshold :=
    match defines m !! "DISTANCE_THRESHOLD" with
    | Some text => JS.ToNumber text
    | None => JS.NaN
    end in
  JS.neg (DepthCodec.orthographicDepthToViewZ threshold
            (JS.Finite (get_near m)) (JS.Finite (get_far m))).

(** [set worldDistanceThreshold(value)] *)
Definition set_worldDistanceThreshold (value : Q) : M unit :=
  fun m =>
    let threshold :=
      DepthCodec.viewZToOrthographicDepth (JS.neg (JS.Finite value))
        (JS.Finite (get_near m)) (JS.Finite (get_far m)) in
    (set_define "DISTANCE_THRESHOLD" (JS.toFixed_number 12 threshold);;
     set_needsUpdate true) m.

(** [copyCameraSettings(camera)]; [None] is a camera that is [null] or
    [undefined]. *)
Definition copyCameraSettings (camera : option Camera) : M unit :=
  match camera with
  | Some c =>
      with_uniforms (fun u =>
        {| inputBuffer := inputBuffer u; depthBuffer := depthBuffer u;
           normalDepthBuffer := normalDepthBuffer u; texelSize := texelSize u;
           cameraNearFar := {| x := near c; y := far c |};
           scale := scale u |});;
      (if isPerspectiveCamera c then set_define "PERSPECTIVE_CAMERA" "1"
       else delete_define "PERSPECTIVE_CAMERA");;
      set_needsUpdate true
  | None => mret tt
  end.

(** [setSize(width, height)] *)
Definition setSize (width height : Q) : M unit :=
  with_uniforms (fun u =>
    {| inputBuffer := inputBuffer u; depthBuffer := depthBuffer u;
       normalDepthBuffer := normalDepthBuffer u;
       texelSize := {| x := JS.div (JS.Finite 1) (JS.Finite width);
                       y := JS.div (JS.Finite 1) (JS.Finite height) |};
       cameraNearFar := cameraNearFar u; scale := scale u |}).

(** *** Construction *)

(** The options object; [None] is a property that is absent. *)
Record Options : Type := {
  opt_bilateral : option value;
  opt_kernelSize : option Q
}.

(** No options at all: [new BoxBlurMaterial()]. *)
Definition no_options : Options :=
  {| opt_bilateral := None; opt_kernelSize := None |}.

(** The material as [super(...)] leaves it. *)
Definition ShaderMaterial_init : BoxBlurMaterial :=
  {| name := "BoxBlurMaterial";
     defines := <["DEPTH_PACKING" := "0"]> (<["DISTANCE_THRESHOLD" := "0.1"]> ∅);
     uniforms :=
       {| inputBuffer := Null; depthBuffer := Null; normalDepthBuffer := Null;
          texelSize := {| x := JS.Finite 0; y := JS.Finite 0 |};
          cameraNearFar := {| x := 0%Q; y := 0%Q |};
          scale := 1 |};
     blending := NoBlending;
     toneMapped := false;
     depthWrite := false;
     depthTest := false;
     needsUpdate := false |}.

(** A destructuring default applies when the property is [undefined]. *)
Definition bilateral_option (o : Options) : value :=
  match opt_bilateral o with
  | None | Some Undefined => Bool false
  | Some v => v
  end.

Definition kernelSize_option (o : Options) : Q :=
  match opt_kernelSize o with
  | None => 5
  | Some k => k
  end.

(** [constructor({ bilateral = false, kernelSize = 5 } = {})] *)
Definition constructor (o : Options) : completion unit * BoxBlurMaterial :=
  (set_bilateral (bilateral_option o);;
   set_kernelSize (kernelSize_option o);;
   set_maxVaryingVectors 8) ShaderMaterial_init.

(** ** Auxiliary definitions for the statements *)

(** A material that the renderer has compiled: built with no options, flag
    cleared. *)
Definition compiled_default : BoxBlurMaterial :=
  exec (set_needsUpdate false) (snd (constructor no_options)).

(** The defines after an accepted kernel size has been written over [d]. *)
Definition kernel_defines (value : Q) (d : gmap string string) :
    gmap string string :=
  <["INV_KERNEL_SIZE_SQ" :=
      JS.toFixed_number 6 (JS.div (JS.Finite 1) (JS.pow2 (JS.Finite value)))]>
  (<["KERNEL_SIZE_SQ_HALF" :=
      JS.toFixed_number 0
        (JS.Math_floor (JS.div (JS.pow2 (JS.Finite value)) (JS.Finite 2)))]>
  (<["KERNEL_SIZE_SQ" := JS.toFixed_number 0 (JS.pow2 (JS.Finite value))]>
  (<["KERNEL_SIZE_HALF" :=
      JS.toFixed_number 0
        (JS.Math_floor (JS.div (JS.Finite value) (JS.Finite 2)))]>
  (<["KERNEL_SIZE" := JS.toFixed 0 value]> d)))).

(** Everything of the material outside its uniforms: the defines, the
    recompilation flag and the rendering options. *)
Definition same_outside_uniforms (m m' : BoxBlurMaterial) : Prop :=
  defines m' = defines m /\ needsUpdate m' = needsUpdate m /\
  name m' = name m /\ blending m' = blending m /\
  toneMapped m' = toneMapped m /\ depthWrite m' = depthWrite m /\
  depthTest m' = depthTest m.

(** ** The material in use: sequences of calls *)

(** One call of a public member of the material, as the owning pass makes
    them between two frames. *)
Inductive call : Type :=
  | SetMaxVaryingVectors (q : Q)
  | SetKernelSize (q : Q)
  | SetScale (q : Q)
  | SetInputBuffer (v : value)
  | SetDepthBuffer (v : value)
  | SetNormalDepthBuffer (v : value)
  | SetDepthPacking (q : Q)
  | SetBilateral (v : value)
  | SetWorldDistanceThreshold (q : Q)
  | CopyCameraSettings (camera : option Camera)
  | SetSize (width height : Q).

Definition run_call (c : call) : M unit :=
  match c with
  | SetMaxVaryingVectors q => set_maxVaryingVectors q
  | SetKernelSize q => set_kernelSize q
  | SetScale q => set_scale q
  | SetInputBuffer v => set_inputBuffer v
  | SetDepthBuffer v => set_depthBuffer v
  | SetNormalDepthBuffer v => set_normalDepthBuffer v
  | SetDepthPacking q => set_depthPacking q
  | SetBilateral v => set_bilateral v
  | SetWorldDistanceThreshold q => set_worldDistanceThreshold q
  | CopyCameraSettings camera => copyCameraSettings camera
  | SetSize width height => setSize width height
  end.

(** The material after a sequence of calls; a call that throws leaves the
    material as it was when it threw, and the caller goes on. *)
Definition run_calls (cs : list call) (m : BoxBlurMaterial) : BoxBlurMaterial :=
  fold_left (fun m c => exec (run_call c) m) cs m.

(** The defines that a call may write or delete. *)
Definition written_defines (c : call) : list string :=
  match c with
  | SetMaxVaryingVectors _ => ["MAX_VARYING_VECTORS"]
  | SetKernelSize _ =>
      ["KERNEL_SIZE"; "KERNEL_SIZE_HALF"; "KERNEL_SIZE_SQ";
       "KERNEL_SIZE_SQ_HALF"; "INV_KERNEL_SIZE_SQ"]
  | SetNormalDepthBuffer _ => ["NORMAL_DEPTH"]
  | SetDepthPacking _ => ["DEPTH_PACKING"]
  | SetBilateral _ => ["BILATERAL"]
  | SetWorldDistanceThreshold _ => ["DISTANCE_THRESHOLD"]
  | CopyCameraSettings _ => ["PERSPECTIVE_CAMERA"]
  | SetScale _ | SetInputBuffer _ | SetDepthBuffer _ | SetSize _ _ => []
  end%string.

(** The defines that are flags: present or absent. *)
Definition flag_defines : list string :=
  ["BILATERAL"; "NORMAL_DEPTH"; "PERSPECTIVE_CAMERA"]%string.

(** The calls that leave every uniform alone. *)
Definition keeps_uniforms (c : call) : bool :=
  match c with
  | SetMaxVaryingVectors _ | SetKernelSize _ | SetDepthPacking _
  | SetBilateral _ | SetWorldDistanceThreshold _ | CopyCameraSettings None => true
  | _ => false
  end.

(** A call whose kernel size, if it sets one, is an integer whose square
    is at most [2^53], and so is computed exactly. *)
Definition integral_kernelSize (c : call) : Prop :=
  match c with
  | SetKernelSize q => exists n : Z, q = inject_Z n /\ (n * n <= 2 ^ 53)%Z
  | _ => True
  end.

(** The five kernel defines read as the constants derived from one odd
    size [n]. *)
Definition kernel_consistent (m : BoxBlurMaterial) : Prop :=
  exists n : Z,
    Z.odd n = true /\
    define_number m "KERNEL_SIZE" = Some (inject_Z n) /\
    define_number m "KERNEL_SIZE_HALF" = Some (inject_Z (n / 2)) /\
    define_number m "KERNEL_SIZE_SQ" = Some (inject_Z (n * n)) /\
    define_number m "KERNEL_SIZE_SQ_HALF" = Some (inject_Z (n * n / 2)) /\
    exists q, define_number m "INV_KERNEL_SIZE_SQ" = Some q /\
              (Qabs (q - 1 / inject_Z (n * n)) <= 1 # 2000000)%Q.

(** Runs the body of a method on the material at hand. *)
Ltac run_method :=
  unfold exec, set_kernelSize, set_maxVaryingVectors, set_depthPacking,
    set_bilateral, set_normalDepthBuffer, set_inputBuffer, set_depthBuffer,
    set_scale, set_worldDistanceThreshold, copyCameraSettings, setSize,
    set_define, delete_define, with_defines, with_uniforms, set_needsUpdate,
    throw, mbind, M_bind, mret, M_ret;
  cbn [fst snd name defines uniforms blending toneMapped depthWrite depthTest
       needsUpdate inputBuffer depthBuffer normalDepthBuffer texelSize
       cameraNearFar scale x y not_null near far isPerspectiveCamera].

(** Two-sided form of a bound on an absolute value. *)
Ltac two_sided H := pose proof (proj1 (Qabs_Qle_condition _ _) H).

(** Linear arithmetic with the absolute values as atoms. *)
Ltac abs_lra :=
  repeat match goal with
         | |- context [Qabs ?x] =>
             let a := fresh "abs" in
             pose proof (Qabs_nonneg x); set (a := Qabs x) in *; clearbody a
         | H : context [Qabs ?x] |- _ =>
             let a := fresh "abs" in
             pose proof (Qabs_nonneg x); set (a := Qabs x) in *; clearbody a
         end;
  lra.

(** The same with the unit roundoff written out. *)
Ltac rounding_lra :=
  change Binary64.u with (1 # 9007199254740992) in *; abs_lra.

(** * Examples *)

Example toFixed_ex1 : JS.toFixed 0 5 = "5"%string.
Proof. reflexivity. Qed.
Example toFixed_ex2 : JS.toFixed 6 (1 / 9) = "0.111111"%string.
Proof. reflexivity. Qed.
Example toFixed_ex3 : JS.toFixed 0 (-3) = "-3"%string.
Proof. reflexivity. Qed.
Example toFixed_ex4 : JS.toFixed 12 (4 / 99) = "0.040404040404"%string.
Proof. reflexivity. Qed.
Example toFixed_ex5 : JS.toFixed 2 (12345 # 10) = "1234.50"%string.
Proof. reflexivity. Qed.
Example toFixed_ex6 : JS.toFixed 0 (5 # 2) = "3"%string.
Proof. reflexivity. Qed.
Example Number_ex1 : JS.Number "0.1" = Some (1 # 10).
Proof. reflexivity. Qed.
Example Number_ex2 : JS.Number "-3" = Some (inject_Z (-3)).
Proof. reflexivity. Qed.
Example Number_ex3 : JS.Number "1e5" = None.
Proof. reflexivity. Qed.

(** The scenario of the spec: kernel size 3 gives the constants 1, 9, 4 and
    0.111111. *)
Example kernelSize_3_defines :
  let d := defines (exec (set_kernelSize 3) ShaderMaterial_init) in
  (d !! "KERNEL_SIZE", d !! "KERNEL_SIZE_HALF", d !! "KERNEL_SIZE_SQ",
   d !! "KERNEL_SIZE_SQ_HALF", d !! "INV_KERNEL_SIZE_SQ") =
  (Some "3", Some "1", Some "9", Some "4", Some "0.111111")%string.
Proof. vm_compute. reflexivity. Qed.

Example default_defines :
  map_to_list (defines (snd (constructor no_options))) ≡ₚ
  [("DEPTH_PACKING", "0"); ("DISTANCE_THRESHOLD", "0.1"); ("BILATERAL", "1");
   ("KERNEL_SIZE", "5"); ("KERNEL_SIZE_HALF", "2"); ("KERNEL_SIZE_SQ", "25");
   ("KERNEL_SIZE_SQ_HALF", "12"); ("INV_KERNEL_SIZE_SQ", "0.040000");
   ("MAX_VARYING_VECTORS", "8")]%string.
Proof. vm_compute. solve_Permutation. Qed.

(** * Facts about the decimal text of Numbers *)

Module DigitsFacts.
Import Digits.

Lemma value_of_app ds1 ds2 acc :
  value_of (ds1 ++ ds2) acc = value_of ds2 (value_of ds1 acc).
Proof. unfold value_of. apply fold_left_app. Qed.

Lemma digits_le_value fuel : forall n,
  (n < 2 ^ N.of_nat fuel)%N -> value_of (rev (digits_le fuel n)) 0 = n.
Proof.
  induction fuel as [|fuel IH]; intros n Hn.
  - simpl in Hn. cbn. lia.
  - cbn [digits_le]. destruct (N.ltb_spec n 10) as [Hlt|Hge].
    + cbn. lia.
    + cbn [rev]. rewrite value_of_app, IH.
      * cbn. pose proof (N.div_mod n 10). lia.
      * rewrite Nat2N.inj_succ, N.pow_succ_r' in Hn.
        apply N.Div0.div_lt_upper_bound. lia.
Qed.

Lemma digits_le_bounded fuel : forall n,
  Forall (fun d => (d < 10)%N) (digits_le fuel n).
Proof.
  induction fuel as [|fuel IH]; intros n; cbn [digits_le].
  - constructor.
  - destruct (N.ltb_spec n 10) as [Hlt|Hge].
    + repeat constructor. exact Hlt.
    + constructor; [apply N.mod_lt; lia | apply IH].
Qed.

Lemma digits_le_nonempty fuel n : digits_le (S fuel) n <> [].
Proof. cbn [digits_le]. destruct (n <? 10)%N; discriminate. Qed.

Lemma size_nat_bound n : (n < 2 ^ N.of_nat (S (N.size_nat n)))%N.
Proof.
  rewrite Nat2N.inj_succ, N.pow_succ_r'.
  destruct n as [|p]; [cbn; lia|]. cbn [N.size_nat].
  enough (N.pos p < 2 ^ N.of_nat (Pos.size_nat p))%N by lia.
  induction p as [p IH|p IH|]; cbn [Pos.size_nat];
    rewrite ?Nat2N.inj_succ, ?N.pow_succ_r'; cbn; lia.
Qed.

Lemma digits_value n : value_of (digits n) 0 = n.
Proof. unfold digits. apply digits_le_value, size_nat_bound. Qed.

Lemma digits_bounded n : Forall (fun d => (d < 10)%N) (digits n).
Proof. unfold digits. apply Forall_rev, digits_le_bounded. Qed.

Lemma digits_nonempty n : digits n <> [].
Proof.
  unfold digits. intros H. apply (f_equal (@rev N)) in H.
  rewrite rev_involutive in H. exact (digits_le_nonempty _ _ H).
Qed.

Lemma digit_of_ascii_of_digit d :
  (d < 10)%N -> digit_of_ascii (ascii_of_digit d) = Some d.
Proof.
  intros Hd. unfold digit_of_ascii, ascii_of_digit.
  rewrite N_ascii_embedding by lia.
  destruct (N.leb_spec 48 (48 + d)); [|lia].
  destruct (N.leb_spec (48 + d) 57); [|lia].
  cbn [andb]. f_equal. lia.
Qed.

Lemma parse_app cs1 : forall cs2 acc,
  parse (cs1 ++ cs2) acc =
  match parse cs1 acc with Some v => parse cs2 v | None => None end.
Proof.
  induction cs1 as [|c cs1 IH]; intros cs2 acc; cbn [parse app]; [reflexivity|].
  destruct (digit_of_ascii c); [apply IH | reflexivity].
Qed.

Lemma parse_map ds : forall acc,
  Forall (fun d => (d < 10)%N) ds ->
  parse (map ascii_of_digit ds) acc = Some (value_of ds acc).
Proof.
  induction ds as [|d ds IH]; intros acc Hds; [reflexivity|].
  inversion Hds as [|? ? Hd Hds']; subst.
  cbn [map parse]. rewrite digit_of_ascii_of_digit by exact Hd.
  rewrite IH by exact Hds'. reflexivity.
Qed.

(** Reading what [print] wrote gives the number back. *)
Lemma parse_print n : parse (print n) 0 = Some n.
Proof.
  unfold print. rewrite parse_map by apply digits_bounded.
  now rewrite digits_value.
Qed.

Lemma print_nonempty n : print n <> [].
Proof.
  unfold print. pose proof (digits_nonempty n).
  destruct (digits n); [congruence | discriminate].
Qed.

(** A character that [parse] accepts is a digit. *)
Lemma parse_all_digits cs : forall acc v,
  parse cs acc = Some v -> Forall (fun c => is_Some (digit_of_ascii c)) cs.
Proof.
  induction cs as [|c cs IH]; intros acc v H; [constructor|].
  cbn [parse] in H. destruct (digit_of_ascii c) as [d|] eqn:Hc; [|discriminate].
  constructor; [rewrite Hc; eauto | eapply IH; eassumption].
Qed.

End DigitsFacts.

Module JSFacts.
Import Digits DigitsFacts JS.

Lemma dot_no_digit : digit_of_ascii dot = None.
Proof. reflexivity. Qed.

Lemma split_point_digits a : forall b,
  Forall (fun c => is_Some (digit_of_ascii c)) a ->
  split_point (a ++ dot :: b) = (a, Some b).
Proof.
  induction a as [|c a IH]; intros b Ha; [reflexivity|].
  inversion Ha as [|? ? Hc Ha']; subst. cbn [app split_point].
  destruct (Ascii.eqb_spec c dot) as [->|_].
  - rewrite dot_no_digit in Hc. destruct Hc; discriminate.
  - now rewrite IH.
Qed.

Lemma split_point_no_dot a :
  Forall (fun c => is_Some (digit_of_ascii c)) a ->
  split_point a = (a, None).
Proof.
  induction a as [|c a IH]; intros Ha; [reflexivity|].
  inversion Ha as [|? ? Hc Ha']; subst. cbn [split_point].
  destruct (Ascii.eqb_spec c dot) as [->|_].
  - rewrite dot_no_digit in Hc. destruct Hc; discriminate.
  - now rewrite IH.
Qed.

Lemma parse_zeros k : parse (replicate k zero) 0 = Some 0%N.
Proof. induction k as [|k IH]; [reflexivity | exact IH]. Qed.

Lemma parse_padded f n : parse (padded f n) 0 = Some n.
Proof.
  unfold padded. destruct (length (print n) <=? f)%nat.
  - rewrite parse_app, parse_zeros. apply parse_print.
  - apply parse_print.
Qed.

Lemma padded_length f n : (f < length (padded f n))%nat.
Proof.
  unfold padded. destruct (Nat.leb_spec (length (print n)) f) as [H|H].
  - rewrite length_app, length_replicate. lia.
  - exact H.
Qed.

Lemma fixed_digits_padded f n :
  f <> 0%nat ->
  fixed_digits f n =
    take (length (padded f n) - f) (padded f n) ++
    dot :: drop (length (padded f n) - f) (padded f n).
Proof.
  intros Hf. unfold fixed_digits.
  destruct (Nat.eqb_spec f 0%nat) as [->|_]; [congruence | reflexivity].
Qed.

(** Reading the text of [toFixed], sign apart, gives [n / 10^f]. *)
Lemma unsigned_literal_fixed_digits f n :
  unsigned_literal (fixed_digits f n) = Some (Z.of_N n # pow10 f).
Proof.
  destruct (Nat.eq_dec f 0%nat) as [->|Hf].
  - unfold fixed_digits, unsigned_literal. cbn [Nat.eqb].
    rewrite split_point_no_dot by (eapply parse_all_digits, parse_print).
    cbv iota. cbn [length]. rewrite app_nil_r, Nat.add_0_r, parse_print.
    pose proof (print_nonempty n) as Hne.
    destruct (print n); [congruence | reflexivity].
  - rewrite fixed_digits_padded by exact Hf.
    pose proof (padded_length f n) as Hlen.
    pose proof (parse_padded f n) as Hparse.
    set (m := padded f n) in *.
    assert (Hall : Forall (fun c => is_Some (digit_of_ascii c)) m)
      by (eapply parse_all_digits; exact Hparse).
    unfold unsigned_literal.
    rewrite split_point_digits by (apply Forall_take; exact Hall).
    cbv iota. rewrite take_drop, Hparse, length_drop.
    replace (length m - (length m - f))%nat with f by lia.
    destruct (Nat.eqb_spec (length (take (length m - f) m) + f) 0%nat); [lia|].
    reflexivity.
Qed.

Lemma Number_unsigned cs q :
  unsigned_literal cs = Some q ->
  Number (string_of_list_ascii cs) = Some q.
Proof.
  intros H. unfold Number. rewrite list_ascii_of_string_of_list_ascii.
  destruct cs as [|c cs]; [discriminate H|].
  assert (Hc : c = dot \/ is_Some (digit_of_ascii c)).
  { unfold unsigned_literal in H. cbn [split_point] in H.
    destruct (Ascii.eqb_spec c dot) as [->|_]; [now left | right].
    destruct (split_point cs) as [a b].
    destruct (length (c :: a) + length _ =? 0)%nat; [discriminate|].
    cbn [app parse] in H. destruct (digit_of_ascii c); [eauto | discriminate]. }
  destruct (Ascii.eqb_spec c minus) as [->|_].
  { destruct Hc as [Hc|[d Hc]]; discriminate Hc. }
  destruct (Ascii.eqb_spec c plus) as [->|_].
  { destruct Hc as [Hc|[d Hc]]; discriminate Hc. }
  exact H.
Qed.

(** What [Number] reads from the text written by [toFixed]. *)
Lemma Number_toFixed f x : Number (toFixed f x) = Some (rounded f x).
Proof.
  unfold toFixed, rounded. destruct (Qlt_le_dec x 0).
  - unfold Number. rewrite list_ascii_of_string_of_list_ascii.
    change (Ascii.eqb minus minus) with true. cbv iota.
    now rewrite unsigned_literal_fixed_digits.
  - apply Number_unsigned, unsigned_literal_fixed_digits.
Qed.

Lemma nearest_Qeq f x y : (x == y)%Q -> nearest f x = nearest f y.
Proof. intros H. unfold nearest. now rewrite H. Qed.

Lemma toFixed_Qeq f x y : (x == y)%Q -> toFixed f x = toFixed f y.
Proof.
  intros H. unfold toFixed.
  destruct (Qlt_le_dec x 0) as [Hx|Hx], (Qlt_le_dec y 0) as [Hy|Hy].
  - rewrite (nearest_Qeq f (- x) (- y)) by now rewrite H.
    reflexivity.
  - rewrite H in Hx. exfalso. exact (Qlt_not_le _ _ Hx Hy).
  - rewrite H in Hx. exfalso. exact (Qlt_not_le _ _ Hy Hx).
  - now rewrite (nearest_Qeq f x y H).
Qed.

Lemma pow10_0 : pow10 0 = 1%positive.
Proof. reflexivity. Qed.

Lemma nearest_0_Z z : 0 <= z -> nearest 0 (inject_Z z) = Z.to_N z.
Proof.
  intros Hz. unfold nearest. f_equal. rewrite pow10_0.
  unfold inject_Z, Qmult, Qplus, Qfloor; cbn [Qnum Qden].
  symmetry. apply Z.div_unique with (r := 1); lia.
Qed.

(** On an integer, [toFixed(0)] denotes that integer. *)
Lemma rounded_0_Z z : rounded 0 (inject_Z z) = inject_Z z.
Proof.
  unfold rounded. destruct (Qlt_le_dec (inject_Z z) 0) as [Hz|Hz].
  - assert (z < 0) by (unfold Qlt, inject_Z in Hz; cbn in Hz; lia).
    change (- inject_Z z)%Q with (inject_Z (- z)).
    rewrite nearest_0_Z by lia. rewrite Z2N.id by lia.
    unfold Qopp, inject_Z; cbn [Qnum Qden]. rewrite pow10_0. f_equal. lia.
  - assert (0 <= z) by (unfold Qle, inject_Z in Hz; cbn in Hz; lia).
    rewrite nearest_0_Z by lia. rewrite Z2N.id by lia. reflexivity.
Qed.

Lemma Number_toFixed_0_Z z :
  Number (toFixed 0 (inject_Z z)) = Some (inject_Z z).
Proof. now rewrite Number_toFixed, rounded_0_Z. Qed.

(** [nearest] is within one half of the scaled number. *)
Lemma nearest_close f x :
  (0 <= x)%Q ->
  (Qabs ((Z.of_N (nearest f x) # pow10 f) - x) <= 1 # (2 * pow10 f))%Q.
Proof.
  intros Hx. unfold nearest.
  set (P := pow10 f). destruct x as [a b].
  assert (Ha : 0 <= a) by (unfold Qle in Hx; cbn in Hx; lia).
  unfold inject_Z, Qmult, Qplus, Qfloor; cbn [Qnum Qden].
  set (n := (a * Z.pos P * 2 + 1 * Z.pos (b * 1)) / Z.pos (b * 1 * 2)).
  assert (Hn : 0 <= n) by (apply Z.div_pos; lia).
  rewrite Z2N.id by exact Hn.
  pose proof (Z.div_mod (a * Z.pos P * 2 + 1 * Z.pos (b * 1)) (Z.pos (b * 1 * 2))
                ltac:(lia)) as Hdm.
  pose proof (Z.mod_pos_bound (a * Z.pos P * 2 + 1 * Z.pos (b * 1)) (Z.pos (b * 1 * 2))
                ltac:(lia)) as Hmod.
  fold n in Hdm.
  apply Qabs_Qle_condition. unfold Qle, Qminus, Qplus, Qopp; cbn [Qnum Qden].
  rewrite !Pos2Z.inj_mul in *. split; nia.
Qed.

(** The text of [toFixed f] is within [0.5 * 10^-f] of the number. *)
Lemma rounded_close f x :
  (Qabs (rounded f x - x) <= 1 # (2 * pow10 f))%Q.
Proof.
  unfold rounded. destruct (Qlt_le_dec x 0) as [Hx|Hx].
  - assert (H0 : (0 <= - x)%Q).
    { apply Qlt_le_weak in Hx. apply Qopp_le_compat in Hx. exact Hx. }
    pose proof (nearest_close f (- x) H0) as H.
    rewrite <- Qabs_opp.
    setoid_replace (- (- (Z.of_N (nearest f (- x)) # pow10 f) - x))%Q
      with ((Z.of_N (nearest f (- x)) # pow10 f) - - x)%Q using relation Qeq by ring.
    exact H.
  - apply nearest_close, Hx.
Qed.

End JSFacts.

(** * Facts about binary64 rounding *)

Local Open Scope Q_scope.

Module Binary64Facts.
Import Binary64.

Lemma pow2_pos (k : Z) : 0 < 2 ^ k.
Proof. now apply Qpower_0_lt. Qed.

Lemma pow2_nonzero (k : Z) : ~ 2 ^ k == 0.
Proof. intros H. pose proof (pow2_pos k) as Hp. rewrite H in Hp. discriminate Hp. Qed.

Lemma pow2_plus (a b : Z) : 2 ^ (a + b) == 2 ^ a * 2 ^ b.
Proof. apply Qpower_plus. discriminate. Qed.

Lemma pow2_succ (a : Z) : 2 ^ (a + 1) == 2 * 2 ^ a.
Proof. rewrite pow2_plus. change (2 ^ 1) with 2. ring. Qed.

Lemma pow2_le (a b : Z) : (a <= b)%Z -> 2 ^ a <= 2 ^ b.
Proof. intros H. apply Qpower_le_compat_l; [exact H | discriminate]. Qed.

Lemma pow2_lt (a b : Z) : (a < b)%Z -> 2 ^ a < 2 ^ b.
Proof. intros H. apply Qpower_lt_compat_l; [exact H | reflexivity]. Qed.

Lemma pow2_inject (a : Z) : (0 <= a)%Z -> 2 ^ a == inject_Z (2 ^ a).
Proof. intros H. now rewrite Zpower_Qpower. Qed.

(** Two binades that share a point are the same binade. *)
Lemma binade_unique (x : Q) (l l' : Z) :
  2 ^ l <= x < 2 ^ (l + 1) -> 2 ^ l' <= x < 2 ^ (l' + 1) -> l = l'.
Proof.
  intros [H1 H2] [H3 H4].
  assert (Ha : (l < l' + 1)%Z).
  { apply (Qpower_lt_compat_l_inv 2); [|reflexivity].
    eapply Qle_lt_trans; eassumption. }
  assert (Hb : (l' < l + 1)%Z).
  { apply (Qpower_lt_compat_l_inv 2); [|reflexivity].
    eapply Qle_lt_trans; eassumption. }
  lia.
Qed.

Lemma pow2_frac (a b : Z) :
  (0 <= a)%Z -> (0 <= b)%Z -> 2 ^ (a - b) == (2 ^ a)%Z # Z.to_pos (2 ^ b)%Z.
Proof.
  intros Ha Hb. rewrite Qpower_minus by discriminate.
  rewrite (pow2_inject a Ha), (pow2_inject b Hb), (Qmake_Qdiv (2 ^ a)%Z).
  rewrite Z2Pos.id by (apply Z.pow_pos_nonneg; lia). reflexivity.
Qed.

Lemma ilog2_spec (x : Q) : 0 < x -> 2 ^ ilog2 x <= x < 2 ^ (ilog2 x + 1).
Proof.
  intros Hx. destruct x as [n d]. unfold ilog2; cbn [Qnum Qden].
  assert (Hn : (0 < n)%Z) by (unfold Qlt in Hx; cbn in Hx; lia).
  set (a := Z.log2 n). set (b := Z.log2 (Z.pos d)).
  assert (Ha0 : (0 <= a)%Z) by apply Z.log2_nonneg.
  assert (Hb0 : (0 <= b)%Z) by apply Z.log2_nonneg.
  destruct (Z.log2_spec n Hn) as [Ha1 Ha2]. fold a in Ha1, Ha2.
  destruct (Z.log2_spec (Z.pos d) ltac:(lia)) as [Hb1 Hb2]. fold b in Hb1, Hb2.
  assert (Hpa : (0 < 2 ^ a)%Z) by (apply Z.pow_pos_nonneg; lia).
  assert (Hpb : (0 < 2 ^ b)%Z) by (apply Z.pow_pos_nonneg; lia).
  rewrite Z.pow_succ_r in Ha2, Hb2 by lia.
  assert (Hup : n # d < 2 ^ (a - b + 1)).
  { replace (a - b + 1)%Z with (a + 1 - b)%Z by lia.
    rewrite pow2_frac by lia. unfold Qlt; cbn [Qnum Qden].
    rewrite Z2Pos.id by exact Hpb. rewrite Z.pow_add_r by lia.
    change (2 ^ 1)%Z with 2%Z. nia. }
  assert (Hlo : 2 ^ (a - b - 1) < n # d).
  { replace (a - b - 1)%Z with (a - (b + 1))%Z by lia.
    rewrite pow2_frac by lia. unfold Qlt; cbn [Qnum Qden].
    rewrite Z2Pos.id by (apply Z.pow_pos_nonneg; lia).
    rewrite Z.pow_add_r by lia. change (2 ^ 1)%Z with 2%Z. nia. }
  destruct (Qle_bool (2 ^ (a - b)) (n # d)) eqn:Hk.
  - apply Qle_bool_iff in Hk. split; assumption.
  - replace (a - b - 1 + 1)%Z with (a - b)%Z by lia. split.
    + apply Qlt_le_weak, Hlo.
    + apply Qnot_le_lt. intros H. apply Qle_bool_iff in H. congruence.
Qed.

Lemma ilog2_unique (x : Q) (l : Z) : 2 ^ l <= x < 2 ^ (l + 1) -> ilog2 x = l.
Proof.
  intros H. apply (binade_unique x); [|exact H].
  apply ilog2_spec. eapply Qlt_le_trans; [apply (pow2_pos l) | apply H].
Qed.

Lemma ilog2_Qeq (x y : Q) : 0 < x -> x == y -> ilog2 x = ilog2 y.
Proof.
  intros Hx Hxy. apply ilog2_unique. rewrite Hxy. apply ilog2_spec.
  now rewrite <- Hxy.
Qed.

Lemma round_half_even_close (s : Q) :
  Qabs (inject_Z (round_half_even s) - s) <= 1 # 2.
Proof.
  pose proof (Qfloor_le s) as Hlo. pose proof (Qlt_floor s) as Hhi.
  rewrite inject_Z_plus in Hhi. change (inject_Z 1) with 1 in Hhi.
  unfold round_half_even. apply Qabs_Qle_condition.
  destruct (s - inject_Z (Qfloor s) ?= 1 # 2) eqn:Hc;
    [apply Qeq_alt in Hc; destruct (Z.even (Qfloor s))
    |apply Qlt_alt in Hc | apply Qgt_alt in Hc];
    rewrite ?inject_Z_plus; change (inject_Z 1) with 1;
    revert Hlo Hhi Hc; generalize (inject_Z (Qfloor s)); intros m Hlo Hhi Hc;
    split; lra.
Qed.

Lemma round_half_even_Z (z : Z) : round_half_even (inject_Z z) = z.
Proof.
  unfold round_half_even. rewrite Qfloor_Z.
  replace (inject_Z z - inject_Z z ?= 1 # 2) with Lt; [reflexivity|].
  symmetry. rewrite <- Qlt_alt. generalize (inject_Z z). intros q. lra.
Qed.

Lemma round_half_even_Qeq (s t : Q) :
  s == t -> round_half_even s = round_half_even t.
Proof.
  intros H. unfold round_half_even. rewrite (Qfloor_comp _ _ H).
  assert (Hc : (s - inject_Z (Qfloor t) ?= 1 # 2) =
               (t - inject_Z (Qfloor t) ?= 1 # 2)).
  { apply Qcompare_comp; [rewrite H; reflexivity | reflexivity]. }
  now rewrite Hc.
Qed.

Lemma Qabs_pos_lt (x : Q) : ~ x == 0 -> 0 < Qabs x.
Proof.
  intros Hx. pose proof (Qabs_nonneg x) as H. apply Qle_lteq in H.
  destruct H as [H|H]; [exact H|].
  exfalso. apply Hx. symmetry in H. revert H. apply Qabs_case; intros; lra.
Qed.

Lemma exponent_Qeq (x y : Q) : ~ x == 0 -> x == y -> exponent x = exponent y.
Proof.
  intros Hx Hxy. unfold exponent. f_equal. f_equal.
  apply ilog2_Qeq; [now apply Qabs_pos_lt | now rewrite Hxy].
Qed.

(** Equal rationals round to the same binary64, as a term. *)
Lemma nearest_binary64_Qeq (x y : Q) : x == y -> nearest x = nearest y.
Proof.
  intros H. unfold nearest.
  assert (Hb : Qeq_bool x 0 = Qeq_bool y 0)
    by (apply Qeqb_comp; [exact H | reflexivity]).
  rewrite <- Hb.
  destruct (Qeq_bool x 0) eqn:Hz; [reflexivity|].
  apply Qeq_bool_neq in Hz. rewrite <- (exponent_Qeq x y Hz H).
  f_equal. f_equal. apply round_half_even_Qeq.
  apply Qdiv_comp; [exact H | reflexivity].
Qed.

(** A rounding is off by at most half a unit in the last place. *)
Lemma nearest_half_ulp (x : Q) :
  ~ x == 0 -> Qabs (nearest x - x) <= 2 ^ (exponent x - 1).
Proof.
  intros Hx. unfold nearest.
  destruct (Qeq_bool x 0) eqn:Hz; [apply Qeq_bool_iff in Hz; contradiction|].
  set (E := exponent x). set (s := x / 2 ^ E).
  assert (Hs : x == s * 2 ^ E).
  { unfold s. field. apply pow2_nonzero. }
  clearbody s.
  setoid_replace (inject_Z (round_half_even s) * 2 ^ E - x)
    with ((inject_Z (round_half_even s) - s) * 2 ^ E)
    using relation Qeq by (rewrite Hs; ring).
  rewrite Qabs_Qmult, (Qabs_pos (2 ^ E)) by (apply Qlt_le_weak, pow2_pos).
  replace (E - 1)%Z with (-1 + E)%Z by lia. rewrite pow2_plus.
  apply Qmult_le_compat_r; [|apply Qlt_le_weak, pow2_pos].
  exact (round_half_even_close s).
Qed.

(** The error of a rounding: relative [u], or absolute [eta] where the
    spacing of binary64 stops shrinking. *)
Lemma nearest_error (x : Q) : Qabs (nearest x - x) <= u * Qabs x + eta.
Proof.
  destruct (Qeq_bool x 0) eqn:Hz.
  - apply Qeq_bool_iff in Hz. rewrite (nearest_binary64_Qeq x 0 Hz), Hz.
    vm_compute. discriminate.
  - apply Qeq_bool_neq in Hz.
    eapply Qle_trans; [apply nearest_half_ulp, Hz|].
    pose proof (ilog2_spec (Qabs x) (Qabs_pos_lt x Hz)) as [Hl _].
    assert (Hu : 0 <= u * Qabs x).
    { apply Qmult_le_0_compat; [discriminate | apply Qabs_nonneg]. }
    assert (He : 0 <= eta) by discriminate.
    unfold exponent.
    destruct (Z.max_spec (ilog2 (Qabs x) - 52) (-1074)) as [[_ ->]|[_ ->]].
    + change (2 ^ (-1074 - 1)) with eta. lra.
    + replace (ilog2 (Qabs x) - 52 - 1)%Z with (-53 + ilog2 (Qabs x))%Z by lia.
      rewrite pow2_plus. fold u.
      assert (u * 2 ^ ilog2 (Qabs x) <= u * Qabs x).
      { apply Qmult_le_l; [reflexivity | exact Hl]. }
      lra.
Qed.

(** A number with at most 53 significant bits, on a grid no finer than
    [2^-1074], is a binary64 and rounds to itself. *)
Lemma nearest_exact (z e : Z) :
  (Z.abs z < 2 ^ 53)%Z -> (-1074 <= e)%Z ->
  nearest (inject_Z z * 2 ^ e) == inject_Z z * 2 ^ e.
Proof.
  intros Hz He. set (x := inject_Z z * 2 ^ e).
  destruct (Qeq_bool x 0) eqn:Hx0.
  { apply Qeq_bool_iff in Hx0. now rewrite (nearest_binary64_Qeq x 0 Hx0), Hx0. }
  apply Qeq_bool_neq in Hx0. unfold nearest.
  destruct (Qeq_bool x 0) eqn:Hx0'; [apply Qeq_bool_iff in Hx0'; contradiction|].
  set (E := exponent x).
  assert (HE : (E <= e)%Z).
  { unfold E, exponent.
    pose proof (ilog2_spec (Qabs x) (Qabs_pos_lt x Hx0)) as [Hl _].
    assert (Hlt : 2 ^ ilog2 (Qabs x) < 2 ^ (53 + e)).
    { eapply Qle_lt_trans; [exact Hl|]. unfold x.
      rewrite Qabs_Qmult, (Qabs_pos (2 ^ e)) by (apply Qlt_le_weak, pow2_pos).
      rewrite pow2_plus. apply Qmult_lt_compat_r; [apply pow2_pos|].
      rewrite (pow2_inject 53) by lia.
      change (Qabs (inject_Z z)) with (inject_Z (Z.abs z)).
      rewrite <- Zlt_Qlt. exact Hz. }
    apply Qpower_lt_compat_l_inv in Hlt; [lia | reflexivity]. }
  assert (Hs : x / 2 ^ E == inject_Z (z * 2 ^ (e - E))).
  { unfold x. rewrite inject_Z_mult, <- (pow2_inject (e - E)) by lia.
    rewrite Qpower_minus by discriminate. field.
    apply pow2_nonzero. }
  rewrite (round_half_even_Qeq _ _ Hs), round_half_even_Z.
  unfold x. rewrite inject_Z_mult, <- (pow2_inject (e - E)) by lia.
  rewrite Qpower_minus by discriminate. field. apply pow2_nonzero.
Qed.

End Binary64Facts.

(** * Facts about the arithmetic of Numbers *)

Module NumberFacts.
Import Binary64 Binary64Facts.

Lemma round_Qeq (x y : Q) : x == y -> JS.round x = JS.round y.
Proof.
  intros H. unfold JS.round, JS.is_negative.
  rewrite (nearest_binary64_Qeq x y H).
  assert (Hb : Qle_bool 0 x = Qle_bool 0 y)
    by (apply Qleb_comp; [reflexivity | exact H]).
  now rewrite Hb.
Qed.

Lemma round_finite (x : Q) :
  Qabs x <= 2 ^ 1023 -> JS.round x = JS.Finite (nearest x).
Proof.
  intros Hx. unfold JS.round.
  destruct (Qle_bool (2 ^ 1024) (Qabs (nearest x))) eqn:Hb; [|reflexivity].
  exfalso. apply Qle_bool_iff in Hb.
  pose proof (nearest_error x) as He.
  assert (Ht : Qabs (nearest x) <= Qabs x + Qabs (nearest x - x)).
  { setoid_replace (nearest x) with (x + (nearest x - x)) using relation Qeq at 1
      by ring.
    apply Qabs_triangle. }
  assert (Hu : u * Qabs x <= u * 2 ^ 1023).
  { apply Qmult_le_l; [reflexivity | exact Hx]. }
  assert (Hc : 2 ^ 1023 + u * 2 ^ 1023 + eta < 2 ^ 1024) by reflexivity.
  revert Hb He Ht Hu Hc Hx.
  generalize (Qabs (nearest x)) (Qabs x) (Qabs (nearest x - x))
    (2 ^ 1024) (2 ^ 1023) (u * 2 ^ 1023) eta u.
  intros. nra.
Qed.

(** A binary64 is the result of an operator whose exact result it is. *)
Lemma round_exact (x : Q) (z e : Z) :
  x == inject_Z z * 2 ^ e ->
  (Z.abs z < 2 ^ 53)%Z -> (-1074 <= e <= 970)%Z ->
  exists y, JS.round x = JS.Finite y /\ y == x.
Proof.
  intros Hx Hz He. exists (nearest x). split.
  - apply round_finite. rewrite Hx.
    rewrite Qabs_Qmult, (Qabs_pos (2 ^ e)) by (apply Qlt_le_weak, pow2_pos).
    change (Qabs (inject_Z z)) with (inject_Z (Z.abs z)).
    apply Qle_trans with (inject_Z (2 ^ 53) * 2 ^ 970).
    + apply Qmult_le_compat_nonneg.
      * split; [change 0 with (inject_Z 0); rewrite <- Zle_Qle; lia|].
        rewrite <- Zle_Qle. lia.
      * split; [apply Qlt_le_weak, pow2_pos | apply pow2_le; lia].
    + discriminate.
  - rewrite (nearest_binary64_Qeq x _ Hx), Hx. now apply nearest_exact.
Qed.

Lemma round_integer (z : Z) :
  (Z.abs z < 2 ^ 53)%Z ->
  exists y, JS.round (inject_Z z) = JS.Finite y /\ y == inject_Z z.
Proof.
  intros Hz. apply (round_exact _ z 0); [|exact Hz | lia].
  change (2 ^ 0) with 1. ring.
Qed.

Lemma round_half_integer (x : Q) (z : Z) :
  x == inject_Z z ->
  (Z.abs z < 2 ^ 53)%Z ->
  exists y, JS.round (x / 2) = JS.Finite y /\ y == inject_Z z / 2.
Proof.
  intros Hx Hz.
  destruct (round_exact (x / 2) z (-1)) as (y & Hy & Hyx); [|exact Hz|lia|].
  - rewrite Hx. change (2 ^ (-1)) with (/ 2). reflexivity.
  - exists y. split; [exact Hy|]. now rewrite Hyx, Hx.
Qed.

End NumberFacts.

(** * The material *)

Section KernelArithmetic.

Variable n : Z.

Lemma half_Z : (inject_Z n / 2 == (n # 2))%Q.
Proof. unfold Qeq, Qdiv, Qmult, Qinv, inject_Z; cbn [Qnum Qden]. lia. Qed.

Lemma trunc_half : JS.trunc (inject_Z n / 2) = Z.quot n 2.
Proof.
  unfold JS.trunc. destruct (Qlt_le_dec (inject_Z n / 2) 0) as [H|H].
  - rewrite half_Z in *. unfold Qlt in H; cbn in H.
    unfold Qfloor, Qopp; cbn [Qnum Qden].
    rewrite <- (Z.opp_involutive n) at 2.
    rewrite Z.quot_opp_l by lia. rewrite Z.quot_div_nonneg by lia.
    reflexivity.
  - rewrite half_Z in *. unfold Qle in H; cbn in H.
    unfold Qfloor; cbn [Qnum Qden]. rewrite Z.quot_div_nonneg by lia.
    reflexivity.
Qed.

Lemma rem_2_Z : (JS.rem (inject_Z n) 2 == inject_Z (Z.rem n 2))%Q.
Proof.
  unfold JS.rem. rewrite trunc_half.
  pose proof (Z.quot_rem' n 2) as Hqr.
  unfold Qeq, Qminus, Qplus, Qopp, Qmult, inject_Z; cbn [Qnum Qden].
  generalize dependent (Z.quot n 2). generalize (Z.rem n 2).
  intros r q Hqr. lia.
Qed.

(** The test [value % 2 === 0] of the setter, on an integer. *)
Lemma even_test : Qeq_bool (JS.rem (inject_Z n) 2) 0 = Z.even n.
Proof.
  assert (H : Qeq_bool (inject_Z (Z.rem n 2)) 0 = Z.even n).
  { rewrite Zquot.Zrem_even. destruct (Z.even n) eqn:He; [reflexivity|].
    destruct n as [|p|p]; [discriminate He | reflexivity | reflexivity]. }
  rewrite <- H.
  destruct (Qeq_bool (inject_Z (Z.rem n 2)) 0) eqn:Hq.
  - apply Qeq_bool_iff. rewrite rem_2_Z. now apply Qeq_bool_iff.
  - destruct (Qeq_bool (JS.rem (inject_Z n) 2) 0) eqn:Hq'; [|reflexivity].
    apply Qeq_bool_iff in Hq'. rewrite rem_2_Z in Hq'.
    apply Qeq_bool_iff in Hq'. congruence.
Qed.

End KernelArithmetic.

(** ** Kernel size *)

Lemma set_kernelSize_accepted (q : Q) (m : BoxBlurMaterial) :
  Qeq_bool (JS.rem q 2) 0 = false ->
  set_kernelSize q m =
    (Normal tt,
     {| name := name m; defines := kernel_defines q (defines m);
        uniforms := uniforms m; blending := blending m;
        toneMapped := toneMapped m; depthWrite := depthWrite m;
        depthTest := depthTest m; needsUpdate := true |}).
Proof. intros H. unfold set_kernelSize. rewrite H. reflexivity. Qed.

Lemma set_kernelSize_rejected (q : Q) (m : BoxBlurMaterial) :
  Qeq_bool (JS.rem q 2) 0 = true ->
  set_kernelSize q m = (Throw kernelSize_error, m).
Proof. intros H. unfold set_kernelSize. rewrite H. reflexivity. Qed.

Lemma set_kernelSize_odd (n : Z) (m : BoxBlurMaterial) :
  Z.odd n = true ->
  set_kernelSize (inject_Z n) m =
    (Normal tt,
     {| name := name m; defines := kernel_defines (inject_Z n) (defines m);
        uniforms := uniforms m; blending := blending m;
        toneMapped := toneMapped m; depthWrite := depthWrite m;
        depthTest := depthTest m; needsUpdate := true |}).
Proof.
  intros Ho. apply set_kernelSize_accepted.
  rewrite even_test, <- Z.negb_odd, Ho. reflexivity.
Qed.

Lemma set_kernelSize_even (n : Z) (m : BoxBlurMaterial) :
  Z.even n = true ->
  set_kernelSize (inject_Z n) m = (Throw kernelSize_error, m).
Proof.
  intros He. apply set_kernelSize_rejected. rewrite even_test, He. reflexivity.
Qed.

(** *** The derived constants of an odd size *)

(** An odd integer that is a Number is below [2^53]; its half is a
    binary64. *)
Lemma half_text (n : Z) :
  (Z.abs n < 2 ^ 53)%Z ->
  JS.toFixed_number 0
    (JS.Math_floor (JS.div (JS.Finite (inject_Z n)) (JS.Finite 2))) =
  JS.toFixed 0 (inject_Z (n / 2)).
Proof.
  intros Hn. cbn [JS.div]. change (Qeq_bool 2 0) with false. cbv iota.
  destruct (NumberFacts.round_half_integer (inject_Z n) n (Qeq_refl _) Hn)
    as (y & -> & Hy).
  cbn [JS.Math_floor JS.toFixed_number]. unfold JS.floor. do 2 f_equal.
  rewrite (Qfloor_comp _ _ Hy). symmetry. apply (Zdiv_Qdiv n 2).
Qed.

(** The square is a binary64 up to [2^53]. *)
Section ExactKernel.

Variable n : Z.
Hypothesis n_odd : Z.odd n = true.
Hypothesis n_square : (n * n <= 2 ^ 53)%Z.

Lemma square_odd : Z.odd (n * n) = true.
Proof. now rewrite Z.odd_mul, n_odd. Qed.

Lemma square_below : (0 < n * n < 2 ^ 53)%Z.
Proof.
  pose proof square_odd as Ho. apply Z.odd_spec in Ho. destruct Ho as [k Hk].
  change (2 ^ 53)%Z with 9007199254740992%Z in *. nia.
Qed.

Lemma size_below : (Z.abs n < 2 ^ 53)%Z.
Proof.
  pose proof square_below.
  change (2 ^ 53)%Z with 9007199254740992%Z in *. nia.
Qed.

Lemma square_value :
  exists y, JS.pow2 (JS.Finite (inject_Z n)) = JS.Finite y /\
            y == inject_Z (n * n).
Proof.
  unfold JS.pow2. cbn [JS.mul].
  rewrite (NumberFacts.round_Qeq _ (inject_Z (n * n)))
    by (now rewrite inject_Z_mult).
  apply NumberFacts.round_integer. pose proof square_below. lia.
Qed.

Lemma square_text :
  JS.toFixed_number 0 (JS.pow2 (JS.Finite (inject_Z n))) =
  JS.toFixed 0 (inject_Z (n * n)).
Proof.
  destruct square_value as (y & -> & Hy). cbn [JS.toFixed_number].
  now apply JSFacts.toFixed_Qeq.
Qed.

Lemma square_half_text :
  JS.toFixed_number 0
    (JS.Math_floor (JS.div (JS.pow2 (JS.Finite (inject_Z n))) (JS.Finite 2))) =
  JS.toFixed 0 (inject_Z (n * n / 2)).
Proof.
  destruct square_value as (y & -> & Hy).
  cbn [JS.div]. change (Qeq_bool 2 0) with false. cbv iota.
  destruct (NumberFacts.round_half_integer y (n * n) Hy) as (h & -> & Hh).
  { pose proof square_below. lia. }
  cbn [JS.Math_floor JS.toFixed_number]. unfold JS.floor. do 2 f_equal.
  rewrite (Qfloor_comp _ _ Hh). symmetry. apply (Zdiv_Qdiv (n * n) 2).
Qed.

End ExactKernel.

(** *** The text of the inverse square *)

(** The integer that [toFixed(6)] prints for [1/N], [N] odd, is never
    within a rounding error of a tie: a number near the quotient prints as
    the quotient does. *)
Lemma inverse_floor_gap (N : Z) :
  Z.odd N = true -> (0 < N)%Z ->
  let x := 1 / inject_Z N in
  let w := x * 1000000 + (1 # 2) in
  inject_Z (Qfloor w) + x * (1 # 2) <= w /\
  w <= inject_Z (Qfloor w) + 1 - x * (1 # 2).
Proof.
  intros Ho HN x w.
  assert (HNq : 0 < inject_Z N) by (change 0 with (inject_Z 0); now rewrite <- Zlt_Qlt).
  assert (HNz : ~ inject_Z N == 0) by (intros H; rewrite H in HNq; discriminate HNq).
  assert (HD : 0 < inject_Z (2 * N)).
  { change 0 with (inject_Z 0). rewrite <- Zlt_Qlt. lia. }
  assert (Hw : inject_Z (2 * N) * w == inject_Z (2000000 + N)).
  { unfold w, x. rewrite inject_Z_mult, inject_Z_plus.
    change (inject_Z 2) with 2. change (inject_Z 2000000) with 2000000.
    field. exact HNz. }
  assert (Hx : inject_Z (2 * N) * (x * (1 # 2)) == 1).
  { unfold x. rewrite inject_Z_mult. change (inject_Z 2) with 2.
    field. exact HNz. }
  set (k := Qfloor w).
  assert (Hlo : (2 * N * k <= 2000000 + N)%Z).
  { rewrite Zle_Qle, inject_Z_mult, <- Hw.
    apply Qmult_le_l; [exact HD | apply Qfloor_le]. }
  assert (Hhi : (2000000 + N < 2 * N * (k + 1))%Z).
  { rewrite Zlt_Qlt, (inject_Z_mult (2 * N)), <- Hw.
    apply Qmult_lt_l; [exact HD | apply Qlt_floor]. }
  apply Z.odd_spec in Ho. destruct Ho as [j Hj].
  split.
  - apply (Qmult_le_l _ _ (inject_Z (2 * N)) HD).
    rewrite Qmult_plus_distr_r, Hx, Hw, <- inject_Z_mult.
    change 1 with (inject_Z 1). rewrite <- inject_Z_plus, <- Zle_Qle. nia.
  - apply (Qmult_le_l _ _ (inject_Z (2 * N)) HD).
    setoid_replace (inject_Z (2 * N) * (inject_Z k + 1 - x * (1 # 2)))
      with (inject_Z (2 * N) * inject_Z (k + 1) -
            inject_Z (2 * N) * (x * (1 # 2)))
      using relation Qeq
      by (rewrite inject_Z_plus; change (inject_Z 1) with 1; ring).
    rewrite Hx, Hw, <- inject_Z_mult.
    change 1 with (inject_Z 1). unfold Qminus.
    rewrite <- inject_Z_opp, <- inject_Z_plus, <- Zle_Qle. nia.
Qed.

Lemma Qfloor_unique (w : Q) (k : Z) :
  inject_Z k <= w -> w < inject_Z k + 1 -> Qfloor w = k.
Proof.
  intros Hlo Hhi.
  assert (H1 : (k <= Qfloor w)%Z).
  { rewrite <- (Qfloor_Z k). now apply Qfloor_resp_le. }
  assert (H2 : (Qfloor w < k + 1)%Z).
  { rewrite Zlt_Qlt, inject_Z_plus. change (inject_Z 1) with 1.
    eapply Qle_lt_trans; [apply Qfloor_le | exact Hhi]. }
  lia.
Qed.

Lemma rounded_inverse_stable (N : Z) (y : Q) :
  Z.odd N = true -> (0 < N)%Z ->
  Qabs (y - 1 / inject_Z N) <= (1 # 4000000) * (1 / inject_Z N) ->
  JS.rounded 6 y = JS.rounded 6 (1 / inject_Z N).
Proof.
  intros Ho HN Hy.
  pose proof (inverse_floor_gap N Ho HN) as [Hg1 Hg2]. cbv zeta in Hg1, Hg2.
  assert (HNq : 0 < inject_Z N)
    by (change 0 with (inject_Z 0); now rewrite <- Zlt_Qlt).
  assert (Hx : 0 < 1 / inject_Z N).
  { apply Qlt_shift_div_l; [exact HNq|]. rewrite Qmult_0_l. reflexivity. }
  set (x := 1 / inject_Z N) in *. clearbody x.
  apply Qabs_Qle_condition in Hy.
  assert (Hfloor : Qfloor (y * 1000000 + (1 # 2)) =
                   Qfloor (x * 1000000 + (1 # 2))).
  { apply Qfloor_unique.
    - revert Hg1 Hg2. generalize (inject_Z (Qfloor (x * 1000000 + (1 # 2)))).
      intros k Hg1 Hg2. clear - Hx Hy Hg1 Hg2. lra.
    - revert Hg1 Hg2. generalize (inject_Z (Qfloor (x * 1000000 + (1 # 2)))).
      intros k Hg1 Hg2. clear - Hx Hy Hg1 Hg2. lra. }
  unfold JS.rounded, JS.nearest.
  destruct (Qlt_le_dec y 0) as [Hneg|_];
    [exfalso; clear - Hx Hy Hneg; lra|].
  destruct (Qlt_le_dec x 0) as [Hneg|_];
    [exfalso; clear - Hx Hneg; lra|].
  change (inject_Z (Z.pos (JS.pow10 6))) with 1000000.
  now rewrite Hfloor.
Qed.

(** The reciprocal of a number near [N] is near the reciprocal of [N]. *)
Lemma reciprocal_close (N y x : Q) :
  1 <= N -> N * x == 1 ->
  Qabs (y - N) <= (1 # 4503599627370496) * N ->
  0 < y /\
  Qabs (1 / y - x) <= (3 # 9007199254740992) * x.
Proof.
  intros HN Hx Hy. two_sided Hy.
  assert (Hy0 : 0 < y) by (clear - HN H; lra).
  assert (Hx0 : 0 < x) by (clear - HN Hx; nra).
  split; [exact Hy0|]. apply Qabs_Qle_condition. split.
  - apply (Qplus_le_l _ _ x). ring_simplify.
    apply Qle_shift_div_l; [exact Hy0|]. clear - HN Hx H Hx0 Hy0. nra.
  - apply (Qplus_le_l _ _ x). ring_simplify.
    apply Qle_shift_div_r; [exact Hy0|]. clear - HN Hx H Hx0 Hy0. nra.
Qed.

Lemma inverse_text (n : Z) :
  Z.odd n = true -> (Z.abs n < 2 ^ 53)%Z ->
  exists q,
    JS.Number
      (JS.toFixed_number 6
         (JS.div (JS.Finite 1) (JS.pow2 (JS.Finite (inject_Z n))))) = Some q /\
    Qabs (q - 1 / inject_Z (n * n)) <= 1 # 2000000.
Proof.
  intros Ho Hn.
  assert (HN : (0 < n * n < 2 ^ 106)%Z).
  { apply Z.odd_spec in Ho. destruct Ho as [j Hj].
    change (2 ^ 53)%Z with 9007199254740992%Z in Hn.
    change (2 ^ 106)%Z with (9007199254740992 * 9007199254740992)%Z. nia. }
  assert (Hodd : Z.odd (n * n) = true) by now rewrite Z.odd_mul, Ho.
  set (N := inject_Z (n * n)).
  assert (HN1 : 1 <= N).
  { unfold N. change 1 with (inject_Z 1). rewrite <- Zle_Qle. lia. }
  assert (HN2 : N <= 81129638414606681695789005144064).
  { unfold N. change 81129638414606681695789005144064 with (inject_Z (2 ^ 106)).
    rewrite <- Zle_Qle. lia. }
  assert (HNz : ~ N == 0) by (clear - HN1; lra).
  set (x := 1 / N).
  assert (Hx : N * x == 1) by (unfold x; field; exact HNz).
  assert (Hx0 : 0 < x) by (clear - HN1 Hx; nra).
  assert (Hx1 : x <= 1) by (clear - HN1 Hx Hx0; nra).
  assert (Hxlow : (1 # 81129638414606681695789005144064) <= x)
    by (clear - HN2 Hx Hx0; nra).
  assert (Heta : Binary64.eta <=
                 (1 # 81129638414606681695789005144064) *
                 (1 # 9007199254740992)) by discriminate.
  (* the square *)
  unfold JS.pow2. cbn [JS.mul].
  rewrite (NumberFacts.round_Qeq _ N) by (unfold N; now rewrite inject_Z_mult).
  rewrite NumberFacts.round_finite.
  2:{ rewrite Qabs_pos by (clear - HN1; lra).
      eapply Qle_trans; [exact HN2 | discriminate]. }
  pose proof (Binary64Facts.nearest_error N) as E2.
  rewrite (Qabs_pos N) in E2 by (clear - HN1; lra).
  set (y2 := Binary64.nearest N) in *.
  assert (Hy2 : Qabs (y2 - N) <= (1 # 4503599627370496) * N).
  { eapply Qle_trans; [exact E2|].
    change Binary64.u with (1 # 9007199254740992).
    revert Heta. generalize Binary64.eta. intros eta Heta.
    clear - HN1 Heta. lra. }
  destruct (reciprocal_close N y2 x HN1 Hx Hy2) as [Hy0 Hr].
  (* the quotient *)
  cbn [JS.div].
  destruct (Qeq_bool y2 0) eqn:Hz.
  { exfalso. apply Qeq_bool_iff in Hz. rewrite Hz in Hy0. discriminate Hy0. }
  two_sided Hr.
  rewrite NumberFacts.round_finite.
  2:{ apply Qle_trans with 2; [|discriminate].
      apply Qabs_Qle_condition. clear - H Hx0 Hx1. lra. }
  pose proof (Binary64Facts.nearest_error (1 / y2)) as Ez.
  set (r := 1 / y2) in *. set (z := Binary64.nearest r) in *.
  cbn [JS.toFixed_number]. rewrite JSFacts.Number_toFixed.
  eexists. split; [reflexivity|].
  rewrite (rounded_inverse_stable (n * n) z Hodd).
  - apply (JSFacts.rounded_close 6).
  - lia.
  - fold N. fold x.
    assert (Hrabs : Qabs r <= 2 * x).
    { apply Qabs_Qle_condition. clear - H Hx0. lra. }
    two_sided Ez. apply Qabs_Qle_condition.
    revert Heta H0. generalize Binary64.eta. intros eta Heta H0.
    clear - H H0 Hrabs Hx0 Hxlow Heta. rounding_lra.
Qed.

(** C1. Setting the kernel size to an integer [n] succeeds exactly when [n]
    is odd.  For an odd [n] that is a Number, [|n| < 2^53], the text stored
    under [KERNEL_SIZE_HALF] reads as [floor(n/2)], the text under
    [INV_KERNEL_SIZE_SQ] reads as a number within [0.5e-6] of [1/(n*n)], and
    the [kernelSize] getter returns [n].  When moreover [n * n <= 2^53], so
    that the square is exact in binary64, the texts stored under
    [KERNEL_SIZE_SQ] and [KERNEL_SIZE_SQ_HALF] read as [n*n] and
    [floor(n*n/2)]. *)
Theorem C1_kernelSize_derived_constants (n : Z) (m : BoxBlurMaterial) :
  (Z.odd n = true <-> fst (set_kernelSize (inject_Z n) m) = Normal tt) /\
  (Z.odd n = true -> (Z.abs n < 2 ^ 53)%Z ->
   let m' := exec (set_kernelSize (inject_Z n)) m in
   define_number m' "KERNEL_SIZE_HALF" = Some (inject_Z (n / 2)) /\
   ((n * n <= 2 ^ 53)%Z ->
    define_number m' "KERNEL_SIZE_SQ" = Some (inject_Z (n * n)) /\
    define_number m' "KERNEL_SIZE_SQ_HALF" = Some (inject_Z (n * n / 2))) /\
   (exists q, define_number m' "INV_KERNEL_SIZE_SQ" = Some q /\
              Qabs (q - 1 / inject_Z (n * n)) <= 1 # 2000000) /\
   get_kernelSize m' = Some (inject_Z n)).
Proof.
  split.
  - split.
    + intros Ho. now rewrite set_kernelSize_odd.
    + intros Hr. destruct (Z.odd n) eqn:Ho; [reflexivity|].
      rewrite set_kernelSize_even in Hr by (now rewrite <- Z.negb_odd, Ho).
      discriminate Hr.
  - intros Ho Hn m'. subst m'. unfold exec.
    rewrite set_kernelSize_odd by exact Ho.
    unfold get_kernelSize, define_number, kernel_defines. cbn [snd defines].
    split; [|split; [|split]].
    + do 3 rewrite lookup_insert_ne by done. rewrite lookup_insert_eq.
      rewrite half_text by exact Hn. apply JSFacts.Number_toFixed_0_Z.
    + intros Hsq. split.
      * do 2 rewrite lookup_insert_ne by done. rewrite lookup_insert_eq.
        rewrite square_text by assumption. apply JSFacts.Number_toFixed_0_Z.
      * rewrite lookup_insert_ne by done. rewrite lookup_insert_eq.
        rewrite square_half_text by assumption.
        apply JSFacts.Number_toFixed_0_Z.
    + rewrite lookup_insert_eq. now apply inverse_text.
    + do 4 rewrite lookup_insert_ne by done. rewrite lookup_insert_eq.
      apply JSFacts.Number_toFixed_0_Z.
Qed.

Lemma C1_kernelSize_derived_constants_witness :
  Z.odd 3 = true /\ (Z.abs 3 < 2 ^ 53)%Z /\ (3 * 3 <= 2 ^ 53)%Z /\
  define_number (exec (set_kernelSize (inject_Z 3)) ShaderMaterial_init)
    "KERNEL_SIZE_SQ_HALF" = Some (inject_Z 4).
Proof.
  assert (Hn : (Z.abs 3 < 2 ^ 53)%Z) by reflexivity.
  assert (Hsq : (3 * 3 <= 2 ^ 53)%Z) by (vm_compute; discriminate).
  split; [reflexivity|]. split; [exact Hn|]. split; [exact Hsq|].
  exact (proj2 (proj1 (proj2
    (proj2 (C1_kernelSize_derived_constants 3 ShaderMaterial_init)
       eq_refl Hn)) Hsq)).
Defined.

(** C1, beyond [2^53]: the square of the odd size 94906267 is not a
    binary64, and the define [KERNEL_SIZE_SQ] is written from the rounded
    square 9007199515875288, one less than the square. *)
Lemma C1_inexact_square_counterexample :
  Z.odd 94906267 = true /\
  fst (set_kernelSize (inject_Z 94906267) ShaderMaterial_init) = Normal tt /\
  define_number (exec (set_kernelSize (inject_Z 94906267)) ShaderMaterial_init)
    "KERNEL_SIZE_SQ" = Some (inject_Z 9007199515875288) /\
  ~ define_number (exec (set_kernelSize (inject_Z 94906267)) ShaderMaterial_init)
      "KERNEL_SIZE_SQ" = Some (inject_Z (94906267 * 94906267)).
Proof.
  assert (H : define_number
                (exec (set_kernelSize (inject_Z 94906267)) ShaderMaterial_init)
                "KERNEL_SIZE_SQ" = Some (inject_Z 9007199515875288))
    by (vm_compute; reflexivity).
  split; [reflexivity|]. split; [vm_compute; reflexivity|].
  split; [exact H|]. rewrite H. intros Heq. discriminate Heq.
Qed.

(** C4. An even kernel size makes the setter throw, and the material is then
    exactly as it was before the call: no define, no uniform and not the
    recompilation flag has changed. *)
Theorem C4_even_kernelSize_rejected (n : Z) (m : BoxBlurMaterial) :
  Z.even n = true ->
  set_kernelSize (inject_Z n) m = (Throw kernelSize_error, m).
Proof. apply set_kernelSize_even. Qed.

Lemma C4_even_kernelSize_rejected_witness :
  Z.even 4 = true /\
  set_kernelSize (inject_Z 4) (exec (set_kernelSize (inject_Z 3)) ShaderMaterial_init) =
    (Throw kernelSize_error, exec (set_kernelSize (inject_Z 3)) ShaderMaterial_init).
Proof.
  split; [reflexivity|].
  apply (C4_even_kernelSize_rejected 4); reflexivity.
Defined.

(** ** The recompilation flag *)

(** C2. [setSize] leaves the recompilation flag as it is, and so does the
    [maxVaryingVectors] setter, although it rewrites a define; the setters of
    the kernel size (for an accepted, odd size), [bilateral], the
    normal-depth buffer and the depth packing, and [copyCameraSettings] with
    a camera, raise the flag.  On a compiled material, setting
    [maxVaryingVectors] to 8 leaves the flag down. *)
Theorem C2_needsUpdate_protocol (m : BoxBlurMaterial) :
  (forall w h, needsUpdate (exec (setSize w h) m) = needsUpdate m) /\
  (forall n, Z.odd n = true ->
     needsUpdate (exec (set_kernelSize (inject_Z n)) m) = true) /\
  (forall v, needsUpdate (exec (set_bilateral v) m) = true) /\
  (forall v, needsUpdate (exec (set_normalDepthBuffer v) m) = true) /\
  (forall q, needsUpdate (exec (set_depthPacking q) m) = true) /\
  (forall c, needsUpdate (exec (copyCameraSettings (Some c)) m) = true) /\
  (forall q, needsUpdate (exec (set_maxVaryingVectors q) m) = needsUpdate m) /\
  needsUpdate (exec (set_maxVaryingVectors 8) compiled_default) = false.
Proof.
  repeat split.
  - intros n Ho. unfold exec. now rewrite set_kernelSize_odd.
  - intros v. run_method. now destruct (not_null v).
  - intros v. run_method. now destruct (not_null v).
  - intros c. run_method. now destruct (isPerspectiveCamera c).
Qed.

Lemma C2_needsUpdate_protocol_witness :
  Z.odd 3 = true /\
  needsUpdate (exec (set_kernelSize (inject_Z 3)) compiled_default) = true.
Proof.
  split; [reflexivity|].
  exact (proj1 (proj2 (C2_needsUpdate_protocol compiled_default)) 3%Z eq_refl).
Defined.

(** ** Construction *)

(** C3. Built with no options, the material reports kernel size 5, and its
    [bilateral] getter answers [true]: the constructor hands the default
    [false] to the setter, which enables the feature for every value other
    than [null]. *)
Theorem C3_default_construction :
  fst (constructor no_options) = Normal tt /\
  get_kernelSize (snd (constructor no_options)) = Some 5 /\
  get_bilateral (snd (constructor no_options)) = true.
Proof. vm_compute. repeat split. Qed.

(** ** Bilateral filtering *)

(** C9. Assigning any value other than [null] to [bilateral], the boolean
    [false] included, makes the getter answer [true]; the getter answers
    [false] after an assignment only when [null] was assigned. *)
Theorem C9_bilateral_any_non_null (v : value) (m : BoxBlurMaterial) :
  (v <> Null -> get_bilateral (exec (set_bilateral v) m) = true) /\
  get_bilateral (exec (set_bilateral (Bool false)) m) = true /\
  (get_bilateral (exec (set_bilateral v) m) = false <-> v = Null).
Proof.
  assert (Hset : forall u, u <> Null ->
            get_bilateral (exec (set_bilateral u) m) = true).
  { intros u Hu. unfold get_bilateral.
    destruct u; try congruence; run_method;
      rewrite lookup_insert_eq; apply bool_decide_eq_true; eauto. }
  assert (Hnull : get_bilateral (exec (set_bilateral Null) m) = false).
  { unfold get_bilateral. run_method.
    rewrite lookup_delete_eq. apply bool_decide_eq_false.
    intros [s Hs]. discriminate Hs. }
  split; [apply Hset|]. split; [apply Hset; discriminate|]. split.
  - intros Hf. destruct v; try reflexivity;
      rewrite Hset in Hf by discriminate; discriminate Hf.
  - intros ->. exact Hnull.
Qed.

Lemma C9_bilateral_any_non_null_witness :
  Bool false <> Null /\
  get_bilateral (exec (set_bilateral (Bool false)) ShaderMaterial_init) = true.
Proof.
  split; [discriminate|].
  apply (proj1 (C9_bilateral_any_non_null (Bool false) ShaderMaterial_init)).
  discriminate.
Defined.

(** ** Camera *)

(** C6. [copyCameraSettings] with no camera completes normally and leaves the
    material as it is.  With a camera it stores the camera's near and far
    planes, leaves the define [PERSPECTIVE_CAMERA] present exactly when the
    camera is a perspective camera, and raises the recompilation flag. *)
Theorem C6_copyCameraSettings (m : BoxBlurMaterial) :
  copyCameraSettings None m = (Normal tt, m) /\
  forall c : Camera,
    let m' := exec (copyCameraSettings (Some c)) m in
    fst (copyCameraSettings (Some c) m) = Normal tt /\
    get_near m' = near c /\ get_far m' = far c /\
    (is_Some (defines m' !! "PERSPECTIVE_CAMERA") <->
     isPerspectiveCamera c = true) /\
    needsUpdate m' = true.
Proof.
  split; [reflexivity|]. intros c m'. subst m'.
  unfold get_near, get_far. destruct c as [cn cf [|]]; run_method.
  - repeat split; try reflexivity. rewrite lookup_insert_eq. eauto.
  - repeat split; try reflexivity; rewrite lookup_delete_eq.
    + intros [s Hs]. discriminate Hs.
    + discriminate.
Qed.

(** ** Buffers and size *)

(** C7. The [normalDepthBuffer] setter stores its argument, leaves the
    define [NORMAL_DEPTH] present exactly when the argument is not [null],
    raises the recompilation flag, and does not touch the depth buffer
    uniform: a depth buffer bound before is still bound after. *)
Theorem C7_normalDepthBuffer (h : value) (m : BoxBlurMaterial) :
  let m' := exec (set_normalDepthBuffer h) m in
  fst (set_normalDepthBuffer h m) = Normal tt /\
  normalDepthBuffer (uniforms m') = h /\
  (is_Some (defines m' !! "NORMAL_DEPTH") <-> h <> Null) /\
  needsUpdate m' = true /\
  depthBuffer (uniforms m') = depthBuffer (uniforms m) /\
  forall d, depthBuffer (uniforms
              (exec (set_depthBuffer d;; set_normalDepthBuffer h) m)) = d.
Proof.
  assert (Hnull : is_Some (delete "NORMAL_DEPTH" (defines m) !! "NORMAL_DEPTH")
                  <-> Null <> Null).
  { rewrite lookup_delete_eq. split; [intros [s Hs]; discriminate Hs | congruence]. }
  destruct h; run_method; repeat split; try reflexivity;
    try (apply Hnull); try discriminate;
    try (rewrite lookup_insert_eq; eauto).
Qed.

(** The quotient [1.0 / w] for a positive [w]: never NaN, finite when [w]
    is not below the normal range, and when finite within half a unit in
    the last place of the reciprocal. *)
Lemma reciprocal_stored (w : Q) :
  0 < w ->
  JS.div (JS.Finite 1) (JS.Finite w) <> JS.NaN /\
  (2 ^ (-1022) <= w ->
   exists q, JS.div (JS.Finite 1) (JS.Finite w) = JS.Finite q) /\
  forall q, JS.div (JS.Finite 1) (JS.Finite w) = JS.Finite q ->
            Qabs (q - 1 / w) <= Binary64.u * (1 / w) + Binary64.eta.
Proof.
  intros Hw. cbn [JS.div].
  destruct (Qeq_bool w 0) eqn:Hz.
  { exfalso. apply Qeq_bool_iff in Hz. rewrite Hz in Hw. discriminate Hw. }
  assert (Hge : 0 <= 1 / w).
  { apply Qle_shift_div_l; [exact Hw|]. rewrite Qmult_0_l. discriminate. }
  split; [|split].
  - unfold JS.round.
    destruct (Qle_bool (2 ^ 1024) (Qabs (Binary64.nearest (1 / w))));
      discriminate.
  - intros Hnormal. eexists. apply NumberFacts.round_finite.
    rewrite Qabs_pos by exact Hge.
    apply Qle_shift_div_r; [exact Hw|].
    apply Qle_trans with (2 ^ 1023 * 2 ^ (-1022)); [discriminate|].
    apply Qmult_le_l; [reflexivity | exact Hnormal].
  - unfold JS.round.
    destruct (Qle_bool (2 ^ 1024) (Qabs (Binary64.nearest (1 / w))));
      intros q Hq; [discriminate Hq|]. injection Hq as <-.
    eapply Qle_trans; [apply Binary64Facts.nearest_error|].
    rewrite Qabs_pos by exact Hge. apply Qle_refl.
Qed.

(** C8. For a positive width and height, [setSize] stores the binary64
    quotients [1.0 / width] and [1.0 / height] as the texel size: each is a
    Number, not NaN, finite when the size is at least [2^-1022], and when
    finite it is the reciprocal to within half a unit in the last place.
    Nothing else changes: the other uniforms, the defines, the
    recompilation flag and the rendering options are as before. *)
Theorem C8_setSize_frame (width height : Q) (m : BoxBlurMaterial) :
  0 < width -> 0 < height ->
  let m' := exec (setSize width height) m in
  fst (setSize width height m) = Normal tt /\
  texelSize (uniforms m') =
    {| x := JS.div (JS.Finite 1) (JS.Finite width);
       y := JS.div (JS.Finite 1) (JS.Finite height) |} /\
  x (texelSize (uniforms m')) <> JS.NaN /\
  y (texelSize (uniforms m')) <> JS.NaN /\
  (2 ^ (-1022) <= width ->
   exists q, x (texelSize (uniforms m')) = JS.Finite q) /\
  (2 ^ (-1022) <= height ->
   exists q, y (texelSize (uniforms m')) = JS.Finite q) /\
  (forall q, x (texelSize (uniforms m')) = JS.Finite q ->
     Qabs (q - 1 / width) <= Binary64.u * (1 / width) + Binary64.eta) /\
  (forall q, y (texelSize (uniforms m')) = JS.Finite q ->
     Qabs (q - 1 / height) <= Binary64.u * (1 / height) + Binary64.eta) /\
  inputBuffer (uniforms m') = inputBuffer (uniforms m) /\
  depthBuffer (uniforms m') = depthBuffer (uniforms m) /\
  normalDepthBuffer (uniforms m') = normalDepthBuffer (uniforms m) /\
  cameraNearFar (uniforms m') = cameraNearFar (uniforms m) /\
  scale (uniforms m') = scale (uniforms m) /\
  same_outside_uniforms m m'.
Proof.
  intros Hw Hh. unfold same_outside_uniforms. run_method.
  destruct (reciprocal_stored width Hw) as (Hx1 & Hx2 & Hx3).
  destruct (reciprocal_stored height Hh) as (Hy1 & Hy2 & Hy3).
  repeat split; try reflexivity; assumption.
Qed.

(** A frame of 1920 by 1080: the texel size is the pair of quotients, and
    its first component is finite and within [1e-19] of [1/1920]. *)
Lemma C8_setSize_frame_witness :
  0 < 1920 /\ 0 < 1080 /\
  let m' := exec (setSize 1920 1080) ShaderMaterial_init in
  texelSize (uniforms m') =
    {| x := JS.div (JS.Finite 1) (JS.Finite 1920);
       y := JS.div (JS.Finite 1) (JS.Finite 1080) |} /\
  exists q, x (texelSize (uniforms m')) = JS.Finite q /\
            Qabs (q - 1 / 1920) <= 1 # 10000000000000000000.
Proof.
  split; [reflexivity|]. split; [reflexivity|].
  pose proof (C8_setSize_frame 1920 1080 ShaderMaterial_init eq_refl eq_refl)
    as (_ & Htexel & _ & _ & Hfinite & _ & Hclose & _).
  split; [exact Htexel|].
  destruct Hfinite as [q Hq]; [discriminate|].
  exists q. split; [exact Hq|].
  eapply Qle_trans; [exact (Hclose q Hq) | discriminate].
Defined.

(** C10. The [inputBuffer] and [depthBuffer] setters store their argument,
    whatever it is, in their own uniform and change nothing else: the other
    uniforms, the defines, the recompilation flag and the rendering options
    are as before. *)
Theorem C10_buffer_setters_frame (v : value) (m : BoxBlurMaterial) :
  (let m' := exec (set_inputBuffer v) m in
   fst (set_inputBuffer v m) = Normal tt /\
   inputBuffer (uniforms m') = v /\
   depthBuffer (uniforms m') = depthBuffer (uniforms m) /\
   normalDepthBuffer (uniforms m') = normalDepthBuffer (uniforms m) /\
   texelSize (uniforms m') = texelSize (uniforms m) /\
   cameraNearFar (uniforms m') = cameraNearFar (uniforms m) /\
   scale (uniforms m') = scale (uniforms m) /\
   same_outside_uniforms m m') /\
  (let m' := exec (set_depthBuffer v) m in
   fst (set_depthBuffer v m) = Normal tt /\
   depthBuffer (uniforms m') = v /\
   inputBuffer (uniforms m') = inputBuffer (uniforms m) /\
   normalDepthBuffer (uniforms m') = normalDepthBuffer (uniforms m) /\
   texelSize (uniforms m') = texelSize (uniforms m) /\
   cameraNearFar (uniforms m') = cameraNearFar (uniforms m) /\
   scale (uniforms m') = scale (uniforms m) /\
   same_outside_uniforms m m').
Proof. unfold same_outside_uniforms. run_method. repeat split. Qed.

(** ** World distance threshold *)

Lemma Qabs_mult_le (a b c d : Q) :
  Qabs a <= c -> Qabs b <= d -> Qabs (a * b) <= c * d.
Proof.
  intros Ha Hb. rewrite Qabs_Qmult.
  apply Qmult_le_compat_nonneg; split;
    [apply Qabs_nonneg | exact Ha | apply Qabs_nonneg | exact Hb].
Qed.

(** *** The rounding errors of one write and one read

    The setter computes [a = -v + near], [b = near - far] and [t = a / b],
    each rounded, and stores [k], the twelve decimals of [t].  The getter
    rounds [k] to [d] and computes [p = d * b] and [r = p - near], each
    rounded, with the same [b]; it returns [- r].  [eta] is the absolute
    error of a result in the subnormal range. *)
Section ThresholdChain.
Variables (zn zf v eta : Q).
Variables (a b t k d p r : Q).

Hypothesis planes : zn < zf.
Hypothesis between : zn <= v <= zf.
Hypothesis eta_small : eta <= 1 # 37778931862957161709568.
Hypothesis eta_planes : eta <= (zf - zn) * (1 # 37778931862957161709568).

Hypothesis a_error :
  Qabs (a - (- v + zn)) <= Binary64.u * Qabs (- v + zn) + eta.
Hypothesis b_error :
  Qabs (b - (zn + - zf)) <= Binary64.u * Qabs (zn + - zf) + eta.
Hypothesis t_error : Qabs (t - a / b) <= Binary64.u * Qabs (a / b) + eta.
Hypothesis k_error : Qabs (k - t) <= 1 # 2000000000000.
Hypothesis d_error : Qabs (d - k) <= Binary64.u * Qabs k + eta.
Hypothesis p_error : Qabs (p - d * b) <= Binary64.u * Qabs (d * b) + eta.
Hypothesis r_error :
  Qabs (r - (p + - zn)) <= Binary64.u * Qabs (p + - zn) + eta.

Lemma first_sum : Qabs (- v + zn) <= zf - zn.
Proof.
  clear - planes between.
  apply Qabs_Qle_condition. lra. Qed.

Lemma first_difference : Qabs (zn + - zf) <= zf - zn.
Proof.
  clear - planes.
  apply Qabs_Qle_condition. lra. Qed.

Lemma a_bound : Qabs a <= (zf - zn) * (1000000001 # 1000000000).
Proof.
  clear - planes between eta_planes a_error.
  pose proof first_sum. two_sided a_error.
  apply Qabs_Qle_condition. rounding_lra.
Qed.

Lemma b_negative : b < 0.
Proof.
  clear - planes eta_planes b_error.
  pose proof first_difference. two_sided b_error.
  rounding_lra.
Qed.

Lemma b_bound :
  (zf - zn) * (999999999 # 1000000000) <= Qabs b <=
  (zf - zn) * (1000000001 # 1000000000).
Proof.
  clear - planes eta_planes b_error.
  pose proof first_difference. pose proof b_negative. two_sided b_error.
  rewrite (Qabs_neg b) by lra.
  rounding_lra.
Qed.

Lemma b_nonzero : ~ b == 0.
Proof.
  clear - planes eta_planes b_error.
  pose proof b_negative. lra. Qed.

Lemma quotient_bound : Qabs (a / b) <= 100000001 # 100000000.
Proof.
  clear - planes between eta_planes a_error b_error.
  pose proof a_bound as Ha. pose proof b_bound as Hb.
  assert (Hpos : 0 < Qabs b) by rounding_lra.
  unfold Qdiv. rewrite Qabs_Qmult, Qabs_Qinv.
  apply Qle_shift_div_r; [exact Hpos|].
  rounding_lra.
Qed.

Lemma t_bound : Qabs t <= 100000002 # 100000000.
Proof.
  clear - planes between eta_small eta_planes a_error b_error t_error.
  pose proof quotient_bound as Hq. two_sided Hq. two_sided t_error.
  set (q := a / b) in *. clearbody q.
  apply Qabs_Qle_condition. rounding_lra.
Qed.

Lemma k_bound : Qabs k <= 100000003 # 100000000.
Proof.
  clear - planes between eta_small eta_planes a_error b_error t_error k_error.
  pose proof t_bound as Ht. two_sided Ht. two_sided k_error.
  apply Qabs_Qle_condition. rounding_lra.
Qed.

(** The depth read is the quotient up to the twelve decimals and two
    roundings. *)
Lemma d_close :
  Qabs (d - a / b) <= (1 # 2000000000000) + (2001 # 1000) * Binary64.u.
Proof.
  clear - planes between eta_small eta_planes a_error b_error t_error
    k_error d_error.
  pose proof quotient_bound. pose proof k_bound.
  two_sided t_error. two_sided k_error. two_sided d_error.
  set (q := a / b) in *. clearbody q.
  apply Qabs_Qle_condition. rounding_lra.
Qed.

Lemma d_bound : Qabs d <= 100000004 # 100000000.
Proof.
  clear - planes between eta_small eta_planes a_error b_error t_error
    k_error d_error.
  pose proof quotient_bound as Hq. pose proof d_close as Hd.
  two_sided Hq. two_sided Hd.
  set (q := a / b) in *. clearbody q.
  apply Qabs_Qle_condition. rounding_lra.
Qed.

(** Multiplying by the same [b] undoes the division. *)
Lemma product_close :
  Qabs (d * b - a) <=
  (zf - zn) * (1000000001 # 1000000000) *
  ((1 # 2000000000000) + (2001 # 1000) * Binary64.u).
Proof.
  clear - planes between eta_small eta_planes a_error b_error t_error
    k_error d_error.
  assert (He : d * b - a == b * (d - a / b)) by (field; exact b_nonzero).
  rewrite He. apply Qabs_mult_le; [apply b_bound | apply d_close].
Qed.

Lemma product_bound : Qabs (d * b) <= (zf - zn) * (1001 # 1000).
Proof.
  clear - planes between eta_small eta_planes a_error b_error t_error
    k_error d_error.
  apply Qle_trans with
    ((100000004 # 100000000) * ((zf - zn) * (1000000001 # 1000000000))).
  - apply Qabs_mult_le; [apply d_bound | apply b_bound].
  - lra.
Qed.

Lemma p_close :
  Qabs (p - (zn - v)) <=
  (zf - zn) * ((1 # 2000000000000) + (401 # 100) * Binary64.u).
Proof.
  clear - planes between eta_small eta_planes a_error b_error t_error
    k_error d_error p_error.
  pose proof first_sum. pose proof product_bound.
  pose proof product_close as Hc.
  two_sided Hc. two_sided a_error. two_sided p_error.
  set (db := d * b) in *. clearbody db.
  apply Qabs_Qle_condition. rounding_lra.
Qed.

Lemma last_sum : Qabs (p + - zn) <= zf - zn + Qabs v.
Proof.
  clear - planes between eta_small eta_planes a_error b_error t_error
    k_error d_error p_error.
  pose proof p_close as Hp. two_sided Hp.
  pose proof (Qle_Qabs v). pose proof (Qle_Qabs (- v)).
  rewrite Qabs_opp in *.
  apply Qabs_Qle_condition. rounding_lra.
Qed.

Lemma threshold_chain :
  Qabs (- r - v) <=
    (zf - zn) * ((1 # 2000000000000) + (1 # 1125899906842624)) +
    Qabs v * (1 # 4503599627370496).
Proof.
  clear - planes between eta_small eta_planes a_error b_error t_error
    k_error d_error p_error r_error.
  pose proof last_sum. pose proof p_close as Hp. two_sided Hp.
  two_sided r_error.
  apply Qabs_Qle_condition. rounding_lra.
Qed.

End ThresholdChain.

(** *** The threshold written and read back *)

(** An operator whose exact result is within the planes' magnitudes
    returns the nearest binary64. *)
Lemma round_in_range (q : Q) :
  Qabs q <= 4 * 2 ^ 1000 -> JS.round q = JS.Finite (Binary64.nearest q).
Proof.
  intros H. apply NumberFacts.round_finite.
  eapply Qle_trans; [exact H|]. discriminate.
Qed.

Lemma eta_below_planes (zn zf : Q) :
  2 ^ (-1000) <= zf - zn ->
  Binary64.eta <= (zf - zn) * (1 # 37778931862957161709568).
Proof.
  intros H.
  apply Qle_trans with (2 ^ (-1000) * (1 # 37778931862957161709568)).
  - apply Qle_lteq. right. reflexivity.
  - apply Qmult_le_compat_r; [exact H | discriminate].
Qed.

(** The value that the getter returns after the setter, with the planes
    [zn < zf] and the threshold [v] between them. *)
Lemma threshold_read_back (zn zf v : Q) :
  zn < zf -> zn <= v <= zf ->
  - 2 ^ 1000 <= zn -> zf <= 2 ^ 1000 -> 2 ^ (-1000) <= zf - zn ->
  exists r,
    DepthCodec.orthographicDepthToViewZ
      (JS.ToNumber
         (JS.toFixed_number 12
            (DepthCodec.viewZToOrthographicDepth (JS.neg (JS.Finite v))
               (JS.Finite zn) (JS.Finite zf))))
      (JS.Finite zn) (JS.Finite zf) = JS.Finite r /\
    Qabs (- r - v) <=
      (zf - zn) * ((1 # 2000000000000) + (1 # 1125899906842624)) +
      Qabs v * (1 # 4503599627370496).
Proof.
  intros planes between Hlow Hhigh Hgap.
  set (a := Binary64.nearest (- v + zn)).
  set (b := Binary64.nearest (zn + - zf)).
  set (t := Binary64.nearest (a / b)).
  set (k := JS.rounded 12 t).
  set (d := Binary64.nearest k).
  set (p := Binary64.nearest (d * b)).
  set (r := Binary64.nearest (p + - zn)).
  pose proof (Binary64Facts.nearest_error (- v + zn)) as a_error.
  fold a in a_error.
  pose proof (Binary64Facts.nearest_error (zn + - zf)) as b_error.
  fold b in b_error.
  pose proof (Binary64Facts.nearest_error (a / b)) as t_error.
  fold t in t_error.
  pose proof (JSFacts.rounded_close 12 t) as k_error. fold k in k_error.
  pose proof (Binary64Facts.nearest_error k) as d_error.
  fold d in d_error.
  pose proof (Binary64Facts.nearest_error (d * b)) as p_error.
  fold p in p_error.
  pose proof (Binary64Facts.nearest_error (p + - zn)) as r_error.
  fold r in r_error.
  assert (eta_small : Binary64.eta <= 1 # 37778931862957161709568)
    by discriminate.
  pose proof (eta_below_planes zn zf Hgap) as eta_planes.
  assert (Hwide : zf - zn <= 2 * 2 ^ 1000).
  { revert Hlow Hhigh. generalize (2 ^ 1000). intros. lra. }
  assert (Hv : Qabs v <= 2 ^ 1000).
  { apply Qabs_Qle_condition. revert Hlow Hhigh. generalize (2 ^ 1000).
    intros. lra. }
  assert (Hone : 1 <= 2 ^ 1000) by discriminate.
  change (1 # 2 * JS.pow10 12) with (1 # 2000000000000) in k_error.
  assert (Ea : JS.round (- v + zn) = JS.Finite a).
  { apply round_in_range.
    eapply Qle_trans; [apply (first_sum zn zf v); assumption|].
    revert Hwide. generalize (2 ^ 1000). intros. lra. }
  assert (Eb : JS.round (zn + - zf) = JS.Finite b).
  { apply round_in_range.
    eapply Qle_trans; [apply (first_difference zn zf); assumption|].
    revert Hwide. generalize (2 ^ 1000). intros. lra. }
  assert (Hb : Qeq_bool b 0 = false).
  { destruct (Qeq_bool b 0) eqn:E; [|reflexivity].
    apply Qeq_bool_eq in E.
    assert (b < 0)
      by (apply (b_negative zn zf Binary64.eta b); assumption).
    lra. }
  assert (Et : JS.round (a / b) = JS.Finite t).
  { apply round_in_range.
    eapply Qle_trans;
      [apply (quotient_bound zn zf v Binary64.eta a b); assumption|].
    revert Hone. generalize (2 ^ 1000). intros. lra. }
  assert (Ed : JS.round k = JS.Finite d).
  { apply round_in_range.
    eapply Qle_trans;
      [apply (k_bound zn zf v Binary64.eta a b t k); assumption|].
    revert Hone. generalize (2 ^ 1000). intros. lra. }
  assert (Ep : JS.round (d * b) = JS.Finite p).
  { apply round_in_range.
    eapply Qle_trans;
      [apply (product_bound zn zf v Binary64.eta a b t k d); assumption|].
    revert Hwide. generalize (2 ^ 1000). intros. lra. }
  assert (Er : JS.round (p + - zn) = JS.Finite r).
  { apply round_in_range.
    eapply Qle_trans;
      [apply (last_sum zn zf v Binary64.eta a b t k d p); assumption|].
    revert Hwide Hv. generalize (2 ^ 1000) (Qabs v). intros. lra. }
  exists r. split.
  - unfold DepthCodec.orthographicDepthToViewZ,
      DepthCodec.viewZToOrthographicDepth, JS.sub.
    cbn [JS.neg JS.add]. rewrite Ea, Eb.
    cbn [JS.div]. rewrite Hb, Et.
    cbn [JS.toFixed_number]. unfold JS.ToNumber.
    rewrite JSFacts.Number_toFixed. fold k. rewrite Ed.
    cbn [JS.mul]. rewrite Ep. cbn [JS.add]. exact Er.
  - apply (threshold_chain zn zf v Binary64.eta a b t k d p r); assumption.
Qed.

Lemma get_set_worldDistanceThreshold
    (c : Camera) (v : Q) (m : BoxBlurMaterial) :
  get_worldDistanceThreshold
    (exec (copyCameraSettings (Some c);; set_worldDistanceThreshold v) m) =
  JS.neg
    (DepthCodec.orthographicDepthToViewZ
       (JS.ToNumber
          (JS.toFixed_number 12
             (DepthCodec.viewZToOrthographicDepth (JS.neg (JS.Finite v))
                (JS.Finite (near c)) (JS.Finite (far c)))))
       (JS.Finite (near c)) (JS.Finite (far c))).
Proof.
  unfold get_worldDistanceThreshold, get_near, get_far.
  destruct c as [cn cf [|]]; run_method;
    rewrite lookup_insert_eq; reflexivity.
Qed.

(** C5. After the camera planes have been copied, with [near < far], both
    of magnitude at most [2^1000] and at least [2^-1000] apart, setting the
    world distance threshold to [v] between the planes and reading it back
    gives a finite number within
    [(far - near) * (0.5e-12 + 2^-50) + |v| * 2^-52] of [v]; this is within
    the relative tolerance [1e-6] whenever [far - near <= 1e6 * v]. *)
Theorem C5_worldDistanceThreshold_roundtrip
    (c : Camera) (v : Q) (m : BoxBlurMaterial) :
  near c < far c -> near c <= v <= far c ->
  - 2 ^ 1000 <= near c -> far c <= 2 ^ 1000 ->
  2 ^ (-1000) <= far c - near c ->
  exists v',
    get_worldDistanceThreshold
      (exec (copyCameraSettings (Some c);; set_worldDistanceThreshold v) m) =
      JS.Finite v' /\
    Qabs (v' - v) <=
      (far c - near c) * ((1 # 2000000000000) + 2 ^ (-50)) +
      Qabs v * 2 ^ (-52) /\
    (far c - near c <= 1000000 * v -> Qabs (v' - v) <= (1 # 1000000) * v).
Proof.
  intros Hnf Hv Hlow Hhigh Hgap.
  destruct (threshold_read_back (near c) (far c) v Hnf Hv Hlow Hhigh Hgap)
    as (r & Hr & Hclose).
  exists (- r). rewrite get_set_worldDistanceThreshold, Hr.
  split; [reflexivity|].
  change (2 ^ (-50)) with (1 # 1125899906842624).
  change (2 ^ (-52)) with (1 # 4503599627370496).
  split; [exact Hclose|]. intros Hrange.
  eapply Qle_trans; [exact Hclose|].
  rewrite (Qabs_pos v) by lra. lra.
Qed.

(** The scenario of the spec: near 1, far 100, threshold 5. *)
Lemma C5_worldDistanceThreshold_roundtrip_witness :
  let c := {| near := 1; far := 100; isPerspectiveCamera := true |} in
  near c < far c /\ near c <= 5 <= far c /\
  - 2 ^ 1000 <= near c /\ far c <= 2 ^ 1000 /\
  2 ^ (-1000) <= far c - near c /\
  exists v',
    get_worldDistanceThreshold
      (exec (copyCameraSettings (Some c);; set_worldDistanceThreshold 5)
         (snd (constructor no_options))) = JS.Finite v' /\
    Qabs (v' - 5) <= (1 # 1000000) * 5.
Proof.
  intros c.
  assert (Hnf : near c < far c) by reflexivity.
  assert (Hv : near c <= 5 <= far c) by (split; discriminate).
  assert (Hlow : - 2 ^ 1000 <= near c) by discriminate.
  assert (Hhigh : far c <= 2 ^ 1000) by discriminate.
  assert (Hgap : 2 ^ (-1000) <= far c - near c) by discriminate.
  repeat (split; [assumption|]).
  destruct (C5_worldDistanceThreshold_roundtrip c 5
              (snd (constructor no_options)) Hnf Hv Hlow Hhigh Hgap)
    as [v' [Hget [_ Hrel]]].
  exists v'. split; [exact Hget|]. apply Hrel. discriminate.
Defined.

(** C5, the relative tolerance for planes far apart: with near 1 and far
    30000001 the setter stores the depth [0.000000033333] and the
    threshold 2 reads back as a number below 1.999991, which is further
    than [1e-6 * 2] from 2. *)
Lemma C5_relative_tolerance_counterexample :
  let c := {| near := 1; far := 30000001; isPerspectiveCamera := true |} in
  let m := exec (copyCameraSettings (Some c);; set_worldDistanceThreshold 2)
             (snd (constructor no_options)) in
  near c < far c /\ near c <= 2 <= far c /\
  defines m !! "DISTANCE_THRESHOLD" = Some "0.000000033333"%string /\
  exists v',
    get_worldDistanceThreshold m = JS.Finite v' /\
    v' < 1999991 # 1000000 /\
    ~ Qabs (v' - 2) <= (1 # 1000000) * 2.
Proof.
  intros c m. split; [reflexivity|]. split; [split; discriminate|].
  split; [vm_compute; reflexivity|].
  eexists. split; [vm_compute; reflexivity|].
  split; [reflexivity|]. intros H. apply H. reflexivity.
Qed.

(** * Further properties of the material *)

(** ** The guard of the kernel size *)

Lemma trunc_Qeq (a b : Q) : a == b -> JS.trunc a = JS.trunc b.
Proof.
  intros H. unfold JS.trunc.
  destruct (Qlt_le_dec a 0) as [Ha|Ha], (Qlt_le_dec b 0) as [Hb|Hb].
  - now rewrite H.
  - rewrite H in Ha. exfalso. exact (Qlt_not_le _ _ Ha Hb).
  - rewrite H in Ha. exfalso. exact (Qlt_not_le _ _ Hb Ha).
  - now rewrite H.
Qed.

Lemma trunc_Z (k : Z) : JS.trunc (inject_Z k) = k.
Proof.
  unfold JS.trunc. destruct (Qlt_le_dec (inject_Z k) 0).
  - change (- inject_Z k) with (inject_Z (- k)). rewrite Qfloor_Z. lia.
  - apply Qfloor_Z.
Qed.

(** The test [value % 2 === 0] holds exactly for the even integers. *)
Lemma guard_even_integer (q : Q) :
  Qeq_bool (JS.rem q 2) 0 = true <-> exists k : Z, q == inject_Z (2 * k).
Proof.
  rewrite Qeq_bool_iff. unfold JS.rem. split.
  - intros H. exists (JS.trunc (q / 2)). rewrite inject_Z_mult.
    change (inject_Z 2) with 2. lra.
  - intros [k Hk].
    assert (Hhalf : q / 2 == inject_Z k).
    { rewrite Hk, inject_Z_mult. change (inject_Z 2) with 2. field. }
    rewrite (trunc_Qeq _ _ Hhalf), trunc_Z, Hk, inject_Z_mult.
    change (inject_Z 2) with 2. ring.
Qed.

(** X1. The kernel size setter throws exactly when its argument is an even
    integer, and then leaves the material untouched; every other Number, a
    fraction included, is accepted. *)
Theorem X1_kernelSize_rejects_exactly_even_integers (q : Q) (m : BoxBlurMaterial) :
  ((exists k : Z, q == inject_Z (2 * k)) ->
   set_kernelSize q m = (Throw kernelSize_error, m)) /\
  (~ (exists k : Z, q == inject_Z (2 * k)) ->
   fst (set_kernelSize q m) = Normal tt).
Proof.
  split; intros H.
  - apply set_kernelSize_rejected, guard_even_integer, H.
  - destruct (Qeq_bool (JS.rem q 2) 0) eqn:Hg.
    + exfalso. apply H, guard_even_integer, Hg.
    + now rewrite set_kernelSize_accepted.
Qed.

Lemma X1_kernelSize_rejects_exactly_even_integers_witness :
  ~ (exists k : Z, 5 # 2 == inject_Z (2 * k)) /\
  fst (set_kernelSize (5 # 2) ShaderMaterial_init) = Normal tt.
Proof.
  assert (H : ~ (exists k : Z, 5 # 2 == inject_Z (2 * k))).
  { intros [k Hk]. unfold Qeq, inject_Z in Hk; cbn [Qnum Qden] in Hk. lia. }
  split; [exact H|].
  exact (proj2 (X1_kernelSize_rejects_exactly_even_integers (5 # 2)
                  ShaderMaterial_init) H).
Defined.

Lemma rounded_0_integer (q : Q) :
  exists z : Z, JS.rounded 0 q = inject_Z z /\ Qabs (inject_Z z - q) <= 1 # 2.
Proof.
  pose proof (JSFacts.rounded_close 0 q) as Hclose.
  unfold JS.rounded in *. destruct (Qlt_le_dec q 0).
  - exists (- Z.of_N (JS.nearest 0 (- q)))%Z. split; [reflexivity | exact Hclose].
  - exists (Z.of_N (JS.nearest 0 q)). split; [reflexivity | exact Hclose].
Qed.

(** X2. After the setter has accepted a kernel size, the getter returns an
    integer: the one nearest to the Number that was set. *)
Theorem X2_kernelSize_getter_rounds (q : Q) (m : BoxBlurMaterial) :
  fst (set_kernelSize q m) = Normal tt ->
  exists z : Z,
    get_kernelSize (exec (set_kernelSize q) m) = Some (inject_Z z) /\
    Qabs (inject_Z z - q) <= 1 # 2.
Proof.
  intros Hok.
  assert (Hg : Qeq_bool (JS.rem q 2) 0 = false).
  { destruct (Qeq_bool (JS.rem q 2) 0) eqn:Hg; [|reflexivity].
    rewrite set_kernelSize_rejected in Hok by exact Hg. discriminate Hok. }
  destruct (rounded_0_integer q) as [z [Hz Hclose]].
  exists z. split; [|exact Hclose].
  unfold exec, get_kernelSize, define_number.
  rewrite set_kernelSize_accepted by exact Hg. cbn [snd defines].
  unfold kernel_defines.
  do 4 rewrite lookup_insert_ne by done. rewrite lookup_insert_eq.
  now rewrite JSFacts.Number_toFixed, Hz.
Qed.

Lemma X2_kernelSize_getter_rounds_witness :
  fst (set_kernelSize (5 # 2) ShaderMaterial_init) = Normal tt /\
  exists z : Z,
    get_kernelSize (exec (set_kernelSize (5 # 2)) ShaderMaterial_init) =
      Some (inject_Z z) /\
    Qabs (inject_Z z - (5 # 2)) <= 1 # 2.
Proof.
  split; [reflexivity|].
  apply (X2_kernelSize_getter_rounds (5 # 2) ShaderMaterial_init). reflexivity.
Defined.

(** X3. The kernel defines depend on the last accepted size only: setting an
    accepted size after any other size, accepted or not, gives the material
    that setting it alone gives.  In particular setting the same size twice
    is setting it once. *)
Theorem X3_kernelSize_last_write_wins (q1 q2 : Q) (m : BoxBlurMaterial) :
  fst (set_kernelSize q2 m) = Normal tt ->
  exec (set_kernelSize q2) (exec (set_kernelSize q1) m) =
  exec (set_kernelSize q2) m.
Proof.
  intros Hok.
  assert (Hg : Qeq_bool (JS.rem q2 2) 0 = false).
  { destruct (Qeq_bool (JS.rem q2 2) 0) eqn:Hg; [|reflexivity].
    rewrite set_kernelSize_rejected in Hok by exact Hg. discriminate Hok. }
  unfold exec. destruct (Qeq_bool (JS.rem q1 2) 0) eqn:Hg1.
  - now rewrite (set_kernelSize_rejected q1) by exact Hg1.
  - rewrite (set_kernelSize_accepted q1) by exact Hg1.
    rewrite !(set_kernelSize_accepted q2) by exact Hg.
    cbn [snd name defines uniforms blending toneMapped depthWrite depthTest].
    f_equal. unfold kernel_defines. apply map_eq. intros k.
    rewrite !lookup_insert. repeat case_decide; done.
Qed.

Lemma X3_kernelSize_last_write_wins_witness :
  fst (set_kernelSize 3 ShaderMaterial_init) = Normal tt /\
  exec (set_kernelSize 3) (exec (set_kernelSize 7) ShaderMaterial_init) =
  exec (set_kernelSize 3) ShaderMaterial_init.
Proof.
  split; [reflexivity|].
  apply (X3_kernelSize_last_write_wins 7 3 ShaderMaterial_init). reflexivity.
Defined.

(** ** Construction with options *)

Lemma set_bilateral_result (v : value) (m : BoxBlurMaterial) :
  set_bilateral v m =
    (Normal tt,
     {| name := name m;
        defines := if not_null v then <["BILATERAL" := "1"%string]> (defines m)
                   else delete "BILATERAL"%string (defines m);
        uniforms := uniforms m; blending := blending m;
        toneMapped := toneMapped m; depthWrite := depthWrite m;
        depthTest := depthTest m; needsUpdate := true |}).
Proof. run_method. now destruct (not_null v). Qed.

Lemma constructor_accepted (o : Options) :
  Qeq_bool (JS.rem (kernelSize_option o) 2) 0 = false ->
  constructor o =
    (Normal tt,
     exec (set_maxVaryingVectors 8)
       (exec (set_kernelSize (kernelSize_option o))
          (exec (set_bilateral (bilateral_option o)) ShaderMaterial_init))).
Proof.
  intros Hg. unfold constructor, exec, mbind, M_bind.
  rewrite set_bilateral_result. cbn [snd].
  rewrite set_kernelSize_accepted by exact Hg. reflexivity.
Qed.

Lemma constructor_rejected (o : Options) :
  Qeq_bool (JS.rem (kernelSize_option o) 2) 0 = true ->
  constructor o =
    (Throw kernelSize_error,
     exec (set_bilateral (bilateral_option o)) ShaderMaterial_init).
Proof.
  intros Hg. unfold constructor, exec, mbind, M_bind.
  rewrite set_bilateral_result. cbn [snd].
  rewrite set_kernelSize_rejected by exact Hg. reflexivity.
Qed.

Lemma bilateral_option_null (o : Options) :
  not_null (bilateral_option o) = false <-> opt_bilateral o = Some Null.
Proof.
  unfold bilateral_option.
  destruct (opt_bilateral o) as [[]|]; cbn [not_null]; split;
    intros H; try reflexivity; try discriminate H.
Qed.

(** X4. With an odd integer kernel size, given or defaulted, the constructor
    completes: the getter returns that size, [bilateral] is enabled unless
    the option was [null], [MAX_VARYING_VECTORS] reads 8, the depth packing
    and the threshold keep their initial texts, the recompilation flag is
    raised and the uniforms are those of [super]. *)
Theorem X4_constructor_odd_kernelSize (o : Options) (n : Z) :
  kernelSize_option o = inject_Z n -> Z.odd n = true ->
  let m := snd (constructor o) in
  fst (constructor o) = Normal tt /\
  get_kernelSize m = Some (inject_Z n) /\
  (get_bilateral m = false <-> opt_bilateral o = Some Null) /\
  define_number m "MAX_VARYING_VECTORS" = Some 8 /\
  defines m !! "DEPTH_PACKING" = Some "0"%string /\
  defines m !! "DISTANCE_THRESHOLD" = Some "0.1"%string /\
  needsUpdate m = true /\
  uniforms m = uniforms ShaderMaterial_init.
Proof.
  intros Hk Ho m. subst m.
  rewrite constructor_accepted
    by (rewrite Hk, even_test, <- Z.negb_odd, Ho; reflexivity).
  rewrite Hk. unfold exec. rewrite !set_bilateral_result. cbn [snd].
  rewrite !set_kernelSize_odd by exact Ho.
  unfold get_kernelSize, get_bilateral, define_number, kernel_defines.
  unfold set_maxVaryingVectors, set_define, with_defines.
  cbn [fst snd name defines uniforms needsUpdate].
  pose proof (bilateral_option_null o) as Hnull.
  repeat split.
  - do 5 rewrite lookup_insert_ne by done. rewrite lookup_insert_eq.
    apply JSFacts.Number_toFixed_0_Z.
  - do 6 rewrite lookup_insert_ne by done.
    destruct (not_null (bilateral_option o)).
    + rewrite lookup_insert_eq. intros H. apply bool_decide_eq_false in H.
      exfalso. apply H. eauto.
    + intros _. now apply Hnull.
  - intros Hb. apply Hnull in Hb. rewrite Hb.
    do 6 rewrite lookup_insert_ne by done. rewrite lookup_delete_eq.
    apply bool_decide_eq_false. intros [s Hs]. discriminate Hs.
  - rewrite lookup_insert_eq. reflexivity.
  - do 6 rewrite lookup_insert_ne by done.
    destruct (not_null (bilateral_option o)); reflexivity.
  - do 6 rewrite lookup_insert_ne by done.
    destruct (not_null (bilateral_option o)); reflexivity.
Qed.

Lemma X4_constructor_odd_kernelSize_witness :
  let o := {| opt_bilateral := Some Null; opt_kernelSize := Some 7 |} in
  kernelSize_option o = inject_Z 7 /\ Z.odd 7 = true /\
  get_kernelSize (snd (constructor o)) = Some (inject_Z 7).
Proof.
  intros o. split; [reflexivity|]. split; [reflexivity|].
  exact (proj1 (proj2 (X4_constructor_odd_kernelSize o 7 eq_refl eq_refl))).
Defined.

(** X5. The constructor throws the kernel size error exactly when the
    kernel size option is an even integer; with any other Number, and when
    the option is absent, it completes. *)
Theorem X5_constructor_throws_exactly_for_even (o : Options) :
  ((exists k : Z, kernelSize_option o == inject_Z (2 * k)) ->
   fst (constructor o) = Throw kernelSize_error) /\
  (~ (exists k : Z, kernelSize_option o == inject_Z (2 * k)) ->
   fst (constructor o) = Normal tt) /\
  (opt_kernelSize o = None -> fst (constructor o) = Normal tt).
Proof.
  assert (Hno : ~ (exists k : Z, kernelSize_option o == inject_Z (2 * k)) ->
                fst (constructor o) = Normal tt).
  { intros H. destruct (Qeq_bool (JS.rem (kernelSize_option o) 2) 0) eqn:Hg.
    - exfalso. apply H, guard_even_integer, Hg.
    - now rewrite constructor_accepted. }
  split; [|split; [exact Hno|]].
  - intros H. apply guard_even_integer in H.
    now rewrite constructor_rejected.
  - intros Habsent. apply Hno. unfold kernelSize_option. rewrite Habsent.
    intros [k Hk]. unfold Qeq, inject_Z in Hk; cbn [Qnum Qden] in Hk. lia.
Qed.

Lemma X5_constructor_throws_exactly_for_even_witness :
  let o := {| opt_bilateral := None; opt_kernelSize := Some 4 |} in
  (exists k : Z, kernelSize_option o == inject_Z (2 * k)) /\
  fst (constructor o) = Throw kernelSize_error.
Proof.
  intros o.
  assert (H : exists k : Z, kernelSize_option o == inject_Z (2 * k))
    by (exists 2%Z; reflexivity).
  split; [exact H|].
  exact (proj1 (X5_constructor_throws_exactly_for_even o) H).
Defined.

(** ** Calls and what they leave alone *)

Lemma exec_set_kernelSize_cases (q : Q) (m : BoxBlurMaterial) :
  set_kernelSize q m = (Throw kernelSize_error, m) \/
  (fst (set_kernelSize q m) = Normal tt /\
   needsUpdate (exec (set_kernelSize q) m) = true /\
   uniforms (exec (set_kernelSize q) m) = uniforms m /\
   forall k, k ∉ written_defines (SetKernelSize q) ->
             defines (exec (set_kernelSize q) m) !! k = defines m !! k).
Proof.
  destruct (Qeq_bool (JS.rem q 2) 0) eqn:Hg.
  - left. now apply set_kernelSize_rejected.
  - right. unfold exec. rewrite set_kernelSize_accepted by exact Hg.
    cbn [fst snd needsUpdate uniforms defines]. repeat split.
    intros k Hk. cbn [written_defines] in Hk.
    repeat (apply not_elem_of_cons in Hk as [? Hk]).
    unfold kernel_defines. now rewrite !lookup_insert_ne by done.
Qed.

Lemma run_call_defines_frame (c : call) (m : BoxBlurMaterial) (k : string) :
  k ∉ written_defines c ->
  defines (exec (run_call c) m) !! k = defines m !! k.
Proof.
  intros Hk. destruct c as [q|q|q|v|v|v|q|v|q|[cam|]|w h]; cbn [run_call].
  2: { destruct (exec_set_kernelSize_cases q m) as [Hr|(_ & _ & _ & Hf)].
       - unfold exec. now rewrite Hr.
       - now apply Hf. }
  all: cbn [written_defines] in Hk;
    repeat (apply not_elem_of_cons in Hk as [? Hk]);
    run_method; try reflexivity.
  - now rewrite lookup_insert_ne by done.
  - destruct v; cbn [not_null snd defines];
      now rewrite ?lookup_insert_ne, ?lookup_delete_ne by done.
  - now rewrite lookup_insert_ne by done.
  - destruct v; cbn [not_null snd defines];
      now rewrite ?lookup_insert_ne, ?lookup_delete_ne by done.
  - now rewrite lookup_insert_ne by done.
  - destruct (isPerspectiveCamera cam); cbn [snd defines];
      now rewrite ?lookup_insert_ne, ?lookup_delete_ne by done.
Qed.

(** X6. A call writes or deletes only its own defines: every other key of
    [defines] reads after the call as it did before, whether the call
    completed or threw. *)
Theorem X6_calls_write_only_their_defines
    (c : call) (m : BoxBlurMaterial) (k : string) :
  k ∉ written_defines c ->
  defines (exec (run_call c) m) !! k = defines m !! k.
Proof. apply run_call_defines_frame. Qed.

Lemma X6_calls_write_only_their_defines_witness :
  ("KERNEL_SIZE" ∉ written_defines (SetDepthPacking 1)) /\
  defines (exec (run_call (SetDepthPacking 1)) (snd (constructor no_options)))
    !! "KERNEL_SIZE" =
  defines (snd (constructor no_options)) !! "KERNEL_SIZE".
Proof.
  assert (H : "KERNEL_SIZE" ∉ written_defines (SetDepthPacking 1)).
  { cbn [written_defines]. apply not_elem_of_cons. split; [done|].
    apply not_elem_of_nil. }
  split; [exact H|].
  exact (X6_calls_write_only_their_defines (SetDepthPacking 1) _ _ H).
Defined.

(** X7. The setters of the defines and a camera copy without a camera leave
    every uniform as it is. *)
Theorem X7_define_setters_keep_uniforms (c : call) (m : BoxBlurMaterial) :
  keeps_uniforms c = true ->
  uniforms (exec (run_call c) m) = uniforms m.
Proof.
  intros Hc. destruct c as [q|q|q|v|v|v|q|v|q|[cam|]|w h];
    try discriminate Hc; cbn [run_call].
  2: { destruct (exec_set_kernelSize_cases q m) as [Hr|(_ & _ & Hu & _)].
       - unfold exec. now rewrite Hr.
       - exact Hu. }
  all: run_method; try reflexivity.
  destruct v; reflexivity.
Qed.

Lemma X7_define_setters_keep_uniforms_witness :
  keeps_uniforms (SetKernelSize 3) = true /\
  uniforms (exec (run_call (SetKernelSize 3)) ShaderMaterial_init) =
  uniforms ShaderMaterial_init.
Proof.
  split; [reflexivity|].
  exact (X7_define_setters_keep_uniforms (SetKernelSize 3) ShaderMaterial_init
           eq_refl).
Defined.

(** ** Sequences of calls *)

Lemma run_calls_cons (c : call) (cs : list call) (m : BoxBlurMaterial) :
  run_calls (c :: cs) m = run_calls cs (exec (run_call c) m).
Proof. reflexivity. Qed.

Lemma needsUpdate_step (c : call) (m : BoxBlurMaterial) :
  needsUpdate m = true -> needsUpdate (exec (run_call c) m) = true.
Proof.
  intros Hm. destruct c as [q|q|q|v|v|v|q|v|q|[cam|]|w h]; cbn [run_call].
  2: { destruct (exec_set_kernelSize_cases q m) as [Hr|(_ & Hn & _)].
       - unfold exec. now rewrite Hr.
       - exact Hn. }
  all: run_method; try assumption; try reflexivity.
  - now destruct v.
  - now destruct v.
  - now destruct (isPerspectiveCamera cam).
Qed.

(** X9. No call lowers the recompilation flag: once a change has raised it,
    it stays raised through every further sequence of calls, until the
    renderer clears it. *)
Theorem X9_calls_never_clear_needsUpdate (cs : list call) (m : BoxBlurMaterial) :
  needsUpdate m = true -> needsUpdate (run_calls cs m) = true.
Proof.
  revert m. induction cs as [|c cs IH]; intros m Hm; [exact Hm|].
  rewrite run_calls_cons. apply IH, needsUpdate_step, Hm.
Qed.

Lemma X9_calls_never_clear_needsUpdate_witness :
  needsUpdate (snd (constructor no_options)) = true /\
  needsUpdate (run_calls [SetSize 800 600; SetMaxVaryingVectors 16; SetScale 2]
                 (snd (constructor no_options))) = true.
Proof.
  split; [reflexivity|].
  apply X9_calls_never_clear_needsUpdate. reflexivity.
Defined.

Lemma defined_step (c : call) (m : BoxBlurMaterial) (k : string) :
  k ∉ flag_defines -> is_Some (defines m !! k) ->
  is_Some (defines (exec (run_call c) m) !! k).
Proof.
  intros Hk Hm. unfold flag_defines in Hk.
  repeat (apply not_elem_of_cons in Hk as [? Hk]).
  destruct c as [q|q|q|v|v|v|q|v|q|[cam|]|w h]; cbn [run_call].
  2: { unfold exec. destruct (Qeq_bool (JS.rem q 2) 0) eqn:Hg.
       - now rewrite set_kernelSize_rejected.
       - rewrite set_kernelSize_accepted by exact Hg. cbn [snd defines].
         unfold kernel_defines.
         rewrite !lookup_insert. repeat case_decide; eauto. }
  all: run_method; try assumption.
  - rewrite lookup_insert. case_decide; eauto.
  - destruct v; cbn [not_null snd defines];
      rewrite ?lookup_insert_ne, ?lookup_delete_ne by done; assumption.
  - rewrite lookup_insert. case_decide; eauto.
  - destruct v; cbn [not_null snd defines];
      rewrite ?lookup_insert_ne, ?lookup_delete_ne by done; assumption.
  - rewrite lookup_insert. case_decide; eauto.
  - destruct (isPerspectiveCamera cam); cbn [snd defines];
      rewrite ?lookup_insert_ne, ?lookup_delete_ne by done; assumption.
Qed.

(** X10. Only the three flag defines, [BILATERAL], [NORMAL_DEPTH] and
    [PERSPECTIVE_CAMERA], are ever deleted: any other define that is present
    stays present through every sequence of calls. *)
Theorem X10_only_flag_defines_are_deleted
    (cs : list call) (m : BoxBlurMaterial) (k : string) :
  k ∉ flag_defines -> is_Some (defines m !! k) ->
  is_Some (defines (run_calls cs m) !! k).
Proof.
  intros Hk. revert m. induction cs as [|c cs IH]; intros m Hm; [exact Hm|].
  rewrite run_calls_cons. apply IH, defined_step; assumption.
Qed.

Lemma X10_only_flag_defines_are_deleted_witness :
  ("KERNEL_SIZE" ∉ flag_defines) /\
  is_Some (defines (snd (constructor no_options)) !! "KERNEL_SIZE") /\
  is_Some (defines
             (run_calls [SetBilateral Null; SetNormalDepthBuffer Null;
                         CopyCameraSettings None; SetKernelSize 4]
                (snd (constructor no_options))) !! "KERNEL_SIZE").
Proof.
  assert (Hk : "KERNEL_SIZE" ∉ flag_defines).
  { unfold flag_defines. repeat (apply not_elem_of_cons; split; [done|]).
    apply not_elem_of_nil. }
  assert (Hm : is_Some (defines (snd (constructor no_options)) !! "KERNEL_SIZE"))
    by (vm_compute; eauto).
  split; [exact Hk|]. split; [exact Hm|].
  exact (X10_only_flag_defines_are_deleted _ _ _ Hk Hm).
Defined.

Lemma define_number_frame (c : call) (m : BoxBlurMaterial) (k : string) :
  k ∉ written_defines c ->
  define_number (exec (run_call c) m) k = define_number m k.
Proof.
  intros Hk. unfold define_number. now rewrite run_call_defines_frame.
Qed.

Lemma kernel_consistent_set (n : Z) (m : BoxBlurMaterial) :
  Z.odd n = true -> (n * n <= 2 ^ 53)%Z ->
  kernel_consistent (exec (set_kernelSize (inject_Z n)) m).
Proof.
  intros Ho Hsq. exists n. split; [exact Ho|].
  unfold exec. rewrite set_kernelSize_odd by exact Ho.
  unfold define_number, kernel_defines. cbn [snd defines]. repeat split.
  - do 4 rewrite lookup_insert_ne by done. rewrite lookup_insert_eq.
    apply JSFacts.Number_toFixed_0_Z.
  - do 3 rewrite lookup_insert_ne by done. rewrite lookup_insert_eq.
    rewrite half_text by (now apply size_below). apply JSFacts.Number_toFixed_0_Z.
  - do 2 rewrite lookup_insert_ne by done. rewrite lookup_insert_eq.
    rewrite square_text by assumption. apply JSFacts.Number_toFixed_0_Z.
  - rewrite lookup_insert_ne by done. rewrite lookup_insert_eq.
    rewrite square_half_text by assumption.
    apply JSFacts.Number_toFixed_0_Z.
  - rewrite lookup_insert_eq.
    apply inverse_text; [exact Ho | now apply size_below].
Qed.

Lemma kernel_consistent_step (c : call) (m : BoxBlurMaterial) :
  integral_kernelSize c -> kernel_consistent m ->
  kernel_consistent (exec (run_call c) m).
Proof.
  intros Hc Hm.
  assert (Hframe : (forall q, c <> SetKernelSize q) ->
                   kernel_consistent (exec (run_call c) m)).
  { intros Hne. destruct Hm as (n & Ho & H1 & H2 & H3 & H4 & q & H5 & H6).
    exists n. split; [exact Ho|].
    rewrite !define_number_frame
      by (destruct c as [a|a|a|a|a|a|a|a|a|a|a b]; cbn [written_defines];
          try (now destruct (Hne a));
          repeat (apply not_elem_of_cons; split; [done|]);
          apply not_elem_of_nil).
    repeat split; try assumption. exists q. split; assumption. }
  destruct c as [q|q|q|v|v|v|q|v|q|cam|w h];
    try (apply Hframe; discriminate).
  cbn [integral_kernelSize] in Hc. destruct Hc as (n & -> & Hsq).
  cbn [run_call]. destruct (Z.odd n) eqn:Ho.
  - now apply kernel_consistent_set.
  - unfold exec.
    rewrite set_kernelSize_even by (rewrite <- Z.negb_odd, Ho; reflexivity).
    exact Hm.
Qed.

(** X11. The kernel defines never fall out of step: after a construction
    with an odd integer size, and after every sequence of calls whose kernel
    sizes are integers, all with a square of at most [2^53], the five
    kernel defines read as the constants derived from one odd size, the one
    the getter returns. *)
Theorem X11_kernel_defines_stay_consistent
    (o : Options) (n : Z) (cs : list call) :
  kernelSize_option o = inject_Z n -> Z.odd n = true ->
  (n * n <= 2 ^ 53)%Z ->
  Forall integral_kernelSize cs ->
  kernel_consistent (run_calls cs (snd (constructor o))).
Proof.
  intros Hk Ho Hsq Hcs.
  assert (H0 : kernel_consistent (snd (constructor o))).
  { rewrite constructor_accepted
      by (rewrite Hk, even_test, <- Z.negb_odd, Ho; reflexivity).
    cbn [snd]. apply (kernel_consistent_step (SetMaxVaryingVectors 8)).
    - exact I.
    - rewrite Hk. now apply kernel_consistent_set. }
  revert H0. generalize (snd (constructor o)).
  induction Hcs as [|c cs Hc Hcs IH]; intros m Hm; [exact Hm|].
  rewrite run_calls_cons. apply IH, kernel_consistent_step; assumption.
Qed.

Lemma X11_kernel_defines_stay_consistent_witness :
  kernelSize_option no_options = inject_Z 5 /\ Z.odd 5 = true /\
  (5 * 5 <= 2 ^ 53)%Z /\
  Forall integral_kernelSize
    [SetKernelSize 4; SetBilateral Null; SetKernelSize 3; SetDepthPacking 1] /\
  kernel_consistent
    (run_calls
       [SetKernelSize 4; SetBilateral Null; SetKernelSize 3; SetDepthPacking 1]
       (snd (constructor no_options))).
Proof.
  assert (Hsq : (5 * 5 <= 2 ^ 53)%Z) by (vm_compute; discriminate).
  assert (Hcs : Forall integral_kernelSize
            [SetKernelSize 4; SetBilateral Null; SetKernelSize 3;
             SetDepthPacking 1]).
  { repeat constructor; [exists 4%Z | exists 3%Z];
      (split; [reflexivity | vm_compute; discriminate]). }
  split; [reflexivity|]. split; [reflexivity|]. split; [exact Hsq|].
  split; [exact Hcs|].
  exact (X11_kernel_defines_stay_consistent no_options 5 _ eq_refl eq_refl
           Hsq Hcs).
Defined.

(** ** Single setters *)

(** X12. The [scale] getter returns what the setter stored, and the setter
    changes nothing else: the other uniforms, the defines and the
    recompilation flag are as before. *)
Theorem X12_scale_round_trip (q : Q) (m : BoxBlurMaterial) :
  let m' := exec (set_scale q) m in
  fst (set_scale q m) = Normal tt /\
  get_scale m' = q /\
  inputBuffer (uniforms m') = inputBuffer (uniforms m) /\
  depthBuffer (uniforms m') = depthBuffer (uniforms m) /\
  normalDepthBuffer (uniforms m') = normalDepthBuffer (uniforms m) /\
  texelSize (uniforms m') = texelSize (uniforms m) /\
  cameraNearFar (uniforms m') = cameraNearFar (uniforms m) /\
  same_outside_uniforms m m'.
Proof. unfold get_scale, same_outside_uniforms. run_method. repeat split. Qed.

(** X13. The depth packing and the maximum of varying vectors are stored as
    integers: the define reads back as the integer nearest to the Number
    that was set, and as the Number itself when that is an integer. *)
Theorem X13_numeric_defines_read_back (q : Q) (m : BoxBlurMaterial) :
  (exists z : Z,
     define_number (exec (set_depthPacking q) m) "DEPTH_PACKING" =
       Some (inject_Z z) /\
     define_number (exec (set_maxVaryingVectors q) m) "MAX_VARYING_VECTORS" =
       Some (inject_Z z) /\
     Qabs (inject_Z z - q) <= 1 # 2) /\
  (forall n : Z, q = inject_Z n ->
     define_number (exec (set_depthPacking q) m) "DEPTH_PACKING" = Some q /\
     define_number (exec (set_maxVaryingVectors q) m) "MAX_VARYING_VECTORS" =
       Some q).
Proof.
  unfold define_number. run_method. rewrite !lookup_insert_eq.
  rewrite !JSFacts.Number_toFixed. split.
  - destruct (rounded_0_integer q) as [z [Hz Hclose]].
    exists z. rewrite Hz. repeat split. exact Hclose.
  - intros n ->. now rewrite JSFacts.rounded_0_Z.
Qed.

Lemma X13_numeric_defines_read_back_witness :
  8 = inject_Z 8 /\
  define_number (exec (set_maxVaryingVectors 8) ShaderMaterial_init)
    "MAX_VARYING_VECTORS" = Some 8.
Proof.
  split; [reflexivity|].
  exact (proj2 (proj2 (X13_numeric_defines_read_back 8 ShaderMaterial_init)
                  8%Z eq_refl)).
Defined.

(** X14. Switching a flag on and off again removes its define: after
    [bilateral] or the normal-depth buffer has been set to any value and
    then to [null], the defines are those from before without the flag, and
    exactly those from before when the flag was not defined. *)
Theorem X14_flags_switch_off_cleanly (v : value) (m : BoxBlurMaterial) :
  let mb := exec (set_bilateral Null) (exec (set_bilateral v) m) in
  let mn := exec (set_normalDepthBuffer Null) (exec (set_normalDepthBuffer v) m) in
  defines mb = delete "BILATERAL" (defines m) /\
  defines mn = delete "NORMAL_DEPTH" (defines m) /\
  normalDepthBuffer (uniforms mn) = Null /\
  (defines m !! "BILATERAL" = None -> defines mb = defines m) /\
  (defines m !! "NORMAL_DEPTH" = None -> defines mn = defines m).
Proof.
  intros mb mn.
  assert (Hb : defines mb = delete "BILATERAL" (defines m)).
  { subst mb. destruct v; run_method; apply map_eq; intros k;
      repeat (rewrite lookup_delete || rewrite lookup_insert);
      repeat case_decide; done. }
  assert (Hn : defines mn = delete "NORMAL_DEPTH" (defines m)).
  { subst mn. destruct v; run_method; apply map_eq; intros k;
      repeat (rewrite lookup_delete || rewrite lookup_insert);
      repeat case_decide; done. }
  assert (Hid : forall key, defines m !! key = None ->
                            delete key (defines m) = defines m).
  { intros key Hkey. apply map_eq. intros k. rewrite lookup_delete.
    case_decide; congruence. }
  repeat split.
  - exact Hb.
  - exact Hn.
  - intros H. rewrite Hb. now apply Hid.
  - intros H. rewrite Hn. now apply Hid.
Qed.

Lemma X14_flags_switch_off_cleanly_witness :
  defines ShaderMaterial_init !! "BILATERAL" = None /\
  defines (exec (set_bilateral Null)
             (exec (set_bilateral (Bool true)) ShaderMaterial_init)) =
  defines ShaderMaterial_init.
Proof.
  split; [reflexivity|].
  exact (proj1 (proj2 (proj2 (proj2
    (X14_flags_switch_off_cleanly (Bool true) ShaderMaterial_init)))) eq_refl).
Defined.

(** X15. The last camera wins: copying the settings of a camera after any
    earlier copy, with or without a camera, gives the material that copying
    that camera alone gives. *)
Theorem X15_last_camera_wins (c1 : option Camera) (c2 : Camera) (m : BoxBlurMaterial) :
  exec (copyCameraSettings (Some c2)) (exec (copyCameraSettings c1) m) =
  exec (copyCameraSettings (Some c2)) m.
Proof.
  destruct c1 as [[n1 f1 [|]]|], c2 as [n2 f2 [|]]; run_method;
    try reflexivity; f_equal; apply map_eq; intros k;
    repeat (rewrite lookup_delete || rewrite lookup_insert);
    repeat case_decide; done.
Qed.
